(** * The comment stripper of [src/index.js]

    A shallow embedding of [stripJsonComments] (with its helpers
    [stripWithWhitespace], [stripWithoutWhitespace] and [isEscaped]) and the
    properties of the specification checked against it.

    A JavaScript string is a sequence of UTF-16 code units; it is modelled as a
    list of code units, each an [N].  Indexing [s[i]] is [nth_error], which
    gives [None] where JavaScript gives [undefined]. *)

From Stdlib Require Import String Ascii.
From Stdlib Require Import List Bool Arith NArith ZArith Lia.
Import ListNotations.

(** [length] is the length of a list throughout. *)
Abbreviation length := Datatypes.length.

(** ** Code units and JavaScript strings *)

Definition codeunit := N.
Definition jsstring := list codeunit.

Definition DQ : codeunit := 34%N.         (* double quote *)
Definition BACKSLASH : codeunit := 92%N.  (* backslash *)
Definition SLASH : codeunit := 47%N.      (* '/'  *)
Definition STAR : codeunit := 42%N.       (* '*'  *)
Definition COMMA : codeunit := 44%N.      (* ','  *)
Definition RBRACE : codeunit := 125%N.    (* '}'  *)
Definition RBRACKET : codeunit := 93%N.   (* ']'  *)
Definition SPACE : codeunit := 32%N.      (* ' '  *)
Definition TAB : codeunit := 9%N.         (* '\t' *)
Definition LF : codeunit := 10%N.         (* '\n' *)
Definition CR : codeunit := 13%N.         (* '\r' *)
Definition FF : codeunit := 12%N.         (* '\f' *)

(** A string literal of the development, for inputs made of ASCII text. *)
Definition js (t : string) : jsstring :=
  map N_of_ascii (list_ascii_of_string t).

(** [s[i] === k]: false when [s[i]] is [undefined]. *)
Definition char_is (o : option codeunit) (k : codeunit) : bool :=
  match o with
  | Some c => N.eqb c k
  | None => false
  end.

(** [currentCharacter + nextCharacter === 'ab'].  When [nextCharacter] is
    [undefined] the concatenation ends in the text [undefined] and is no
    two-character string. *)
Definition pair_is (cur next : option codeunit) (a b : codeunit) : bool :=
  char_is cur a && char_is next b.

(** [s.slice(a, b)] for non-negative [a] and [b]: the code units at the
    positions [a <= i < min b (length s)], none when [b <= a]. *)
Definition slice (s : jsstring) (a b : nat) : jsstring :=
  firstn (b - a) (skipn a s).

(** The character class [\s] of JavaScript regular expressions: the code units
    that [/\S/] does not match. *)
Definition isWhitespace (c : codeunit) : bool :=
  ((9 <=? c) && (c <=? 13) || (c =? 32) || (c =? 160) || (c =? 5760)
   || (8192 <=? c) && (c <=? 8202) || (c =? 8232) || (c =? 8233)
   || (c =? 8239) || (c =? 8287) || (c =? 12288) || (c =? 65279))%N.

(** One code unit under [.replace(/\S/g, ' ')]. *)
Definition blank (c : codeunit) : codeunit :=
  if isWhitespace c then c else SPACE.

(** ** The helpers of the source *)

(** [const stripWithoutWhitespace = () => ''] *)
Definition stripWithoutWhitespace (s : jsstring) (a b : nat) : jsstring := [].

(** [const stripWithWhitespace = (string, start, end) =>
       string.slice(start, end).replace(/\S/g, ' ')] *)
Definition stripWithWhitespace (s : jsstring) (a b : nat) : jsstring :=
  map blank (slice s a b).

(** The loop of [isEscaped]: [n] is [index + 1], so that [n = 0] is the
    iteration at [index = -1], where [jsonString[index]] is [undefined] and the
    loop ends. *)
Fixpoint isEscaped_loop (jsonString : jsstring) (n : nat) (backslashCount : nat)
  : nat :=
  match n with
  | O => backslashCount
  | S index =>
      if char_is (nth_error jsonString index) BACKSLASH
      then isEscaped_loop jsonString index (backslashCount + 1)
      else backslashCount
  end.

(** [isEscaped(jsonString, quotePosition)]: [index] starts at
    [quotePosition - 1]; the result is [Boolean(backslashCount % 2)]. *)
Definition isEscaped (jsonString : jsstring) (quotePosition : nat) : bool :=
  negb (isEscaped_loop jsonString quotePosition 0 mod 2 =? 0).

(** ** The scanner state *)

(** [isInsideComment] is [false] or one of the two symbols. *)
Inductive comment := NoComment | singleComment | multiComment.

Definition inComment (c : comment) : bool :=
  match c with NoComment => false | _ => true end.
Definition isSingle (c : comment) : bool :=
  match c with singleComment => true | _ => false end.
Definition isMulti (c : comment) : bool :=
  match c with multiComment => true | _ => false end.

(** The variables of [stripJsonComments] that the loop updates. *)
Record state := mkState {
  isInsideString : bool;
  isInsideComment : comment;
  offset : nat;
  buffer : jsstring;
  result : jsstring;
  commaIndex : Z
}.

Definition initial : state := mkState false NoComment 0 [] [] (-1).

Section Scanner.

(** The two options, after their defaults have been applied. *)
Variable whitespace : bool.
Variable trailingCommas : bool.

(** [const strip = whitespace ? stripWithWhitespace : stripWithoutWhitespace] *)
Definition strip : jsstring -> nat -> nat -> jsstring :=
  if whitespace then stripWithWhitespace else stripWithoutWhitespace.

(** [strip(text)], the call with one argument at the end of the function:
    [start] and [end] are [undefined] and [slice] gives the whole text. *)
Definition strip_all (t : jsstring) : jsstring := strip t 0 (length t).

Variable jsonString : jsstring.

(** The quote handling at the top of the loop body. *)
Definition quote_step (index : nat) (st : state) : state :=
  if negb (inComment (isInsideComment st))
     && char_is (nth_error jsonString index) DQ
  then
    let escaped := isEscaped jsonString index in
    if negb escaped
    then mkState (negb (isInsideString st)) (isInsideComment st) (offset st)
                 (buffer st) (result st) (commaIndex st)
    else st
  else st.

(** The trailing-comma branch, entered when [trailingCommas] holds and the
    scanner is in no comment. *)
Definition comma_step (index : nat) (st : state) : state :=
  let currentCharacter := nth_error jsonString index in
  if negb (commaIndex st =? -1)%Z then
    if char_is currentCharacter RBRACE || char_is currentCharacter RBRACKET
    then
      let buffer' := buffer st ++ slice jsonString (offset st) index in
      mkState (isInsideString st) (isInsideComment st) index []
              (result st ++ strip buffer' 0 1 ++ skipn 1 buffer') (-1)
    else if negb (char_is currentCharacter SPACE)
            && negb (char_is currentCharacter TAB)
            && negb (char_is currentCharacter CR)
            && negb (char_is currentCharacter LF)
    then
      mkState (isInsideString st) (isInsideComment st) index
              (buffer st ++ slice jsonString (offset st) index)
              (result st) (-1)
    else st
  else if char_is currentCharacter COMMA then
    mkState (isInsideString st) (isInsideComment st) index []
            (result st ++ buffer st ++ slice jsonString (offset st) index)
            (Z.of_nat index)
  else st.

(** One iteration of the [for] loop at [index]: the value of [index] at the
    end of the body (before the [index++] of the loop header) and the new
    state. *)
Definition body (index : nat) (st0 : state) : nat * state :=
  let currentCharacter := nth_error jsonString index in
  let nextCharacter := nth_error jsonString (index + 1) in
  let st := quote_step index st0 in
  if isInsideString st then (index, st)
  else if negb (inComment (isInsideComment st))
          && pair_is currentCharacter nextCharacter SLASH SLASH
  then
    (index + 1,
     mkState (isInsideString st) singleComment index
             (buffer st ++ slice jsonString (offset st) index)
             (result st) (commaIndex st))
  else if isSingle (isInsideComment st)
          && pair_is currentCharacter nextCharacter CR LF
  then
    let index := index + 1 in
    (index,
     mkState (isInsideString st) NoComment index
             (buffer st ++ strip jsonString (offset st) index)
             (result st) (commaIndex st))
  else if isSingle (isInsideComment st) && char_is currentCharacter LF
  then
    (index,
     mkState (isInsideString st) NoComment index
             (buffer st ++ strip jsonString (offset st) index)
             (result st) (commaIndex st))
  else if negb (inComment (isInsideComment st))
          && pair_is currentCharacter nextCharacter SLASH STAR
  then
    (index + 1,
     mkState (isInsideString st) multiComment index
             (buffer st ++ slice jsonString (offset st) index)
             (result st) (commaIndex st))
  else if isMulti (isInsideComment st)
          && pair_is currentCharacter nextCharacter STAR SLASH
  then
    let index := index + 1 in
    (index,
     mkState (isInsideString st) NoComment (index + 1)
             (buffer st ++ strip jsonString (offset st) (index + 1))
             (result st) (commaIndex st))
  else if trailingCommas && negb (inComment (isInsideComment st))
  then (index, comma_step index st)
  else (index, st).

(** [for (let index = 0; index < jsonString.length; index++) body].  Each
    iteration moves [index] forward, so [length jsonString - index]
    iterations are enough; [fuel] bounds their number. *)
Fixpoint loop (fuel : nat) (index : nat) (st : state) : nat * state :=
  match fuel with
  | O => (index, st)
  | S fuel' =>
      if index <? length jsonString then
        let '(index', st') := body index st in
        loop fuel' (S index') st'
      else (index, st)
  end.

(** The state in which the loop ends. *)
Definition final_state : state :=
  snd (loop (length jsonString) 0 initial).

(** The [return] expression. *)
Definition finish (st : state) : jsstring :=
  result st ++ buffer st ++
  (if inComment (isInsideComment st)
   then strip_all (skipn (offset st) jsonString)
   else skipn (offset st) jsonString).

(** The function on a string argument. *)
Definition strip_string : jsstring := finish final_state.

End Scanner.

(** ** Arguments and results *)

(** The values [stripJsonComments] can be called with: a string, or a value
    of another type, of which only [typeof] matters. *)
Inductive jstype := TUndefined | TObject | TBoolean | TNumber | TBigint
                  | TSymbol | TFunction.

Inductive jsvalue :=
| VString (s : jsstring)
| VOther (t : jstype).

(** The options object [{ whitespace = true, trailingCommas = false } = {}],
    either given or left out: a field that is absent is [None] and takes its
    default. *)
Record options := mkOptions {
  opt_whitespace : option bool;
  opt_trailingCommas : option bool
}.

Definition no_options : options := mkOptions None None.

Definition get_whitespace (o : options) : bool :=
  match opt_whitespace o with Some b => b | None => true end.
Definition get_trailingCommas (o : options) : bool :=
  match opt_trailingCommas o with Some b => b | None => false end.

(** The outcome of a call: the returned string or the thrown [TypeError]. *)
Inductive outcome :=
| Returned (s : jsstring)
| TypeError (got : jstype).

Definition stripJsonComments (v : jsvalue) (o : options) : outcome :=
  match v with
  | VOther t => TypeError t
  | VString s => Returned (strip_string (get_whitespace o) (get_trailingCommas o) s)
  end.

(** ** The scanner as the specification describes it

    The specification (sections 3 and 4.1) describes a scanner with four
    modes that reads the text from left to right with one character of
    lookahead.  [classify] follows that description and says, for each
    character of the text, what it is: payload of a string literal (the
    opening quote included), part of a comment, or code.  In one place it
    follows the source where the specification says otherwise: when a line
    comment ends at a carriage return and line feed, the carriage return is
    counted with the comment, since the source strips the span up to the line
    feed. *)

Inductive mode := Normal | InString | InLineComment | InBlockComment.

Inductive cls :=
| Str    (* opening quote or content of a string literal *)
| Com    (* inside a comment span *)
| Code.  (* anything else, the closing quote of a literal included *)

(** Escape parity after one more character: whether the run of backslashes
    that ends with [c] has odd length. *)
Definition next_esc (esc : bool) (c : codeunit) : bool :=
  if (c =? BACKSLASH)%N then negb esc else false.

(** [esc] says that the characters just before the text are an odd number of
    backslashes.  It only matters in [Normal] and [InString] mode. *)
Fixpoint classify (m : mode) (esc : bool) (l : jsstring) : list cls :=
  match l with
  | [] => []
  | c :: r =>
      match m with
      | Normal =>
          if (c =? DQ)%N && negb esc then Str :: classify InString false r
          else
            match r with
            | c2 :: r2 =>
                if (c =? SLASH)%N && (c2 =? SLASH)%N
                then Com :: Com :: classify InLineComment false r2
                else if (c =? SLASH)%N && (c2 =? STAR)%N
                then Com :: Com :: classify InBlockComment false r2
                else Code :: classify Normal (next_esc esc c) r
            | [] => Code :: classify Normal (next_esc esc c) r
            end
      | InString =>
          if (c =? DQ)%N && negb esc then Code :: classify Normal false r
          else Str :: classify InString (next_esc esc c) r
      | InLineComment =>
          match r with
          | c2 :: r2 =>
              if (c =? CR)%N && (c2 =? LF)%N
              then Com :: Code :: classify Normal false r2
              else if (c =? LF)%N then Code :: classify Normal false r
              else Com :: classify InLineComment false r
          | [] =>
              if (c =? LF)%N then Code :: classify Normal false r
              else Com :: classify InLineComment false r
          end
      | InBlockComment =>
          match r with
          | c2 :: r2 =>
              if (c =? STAR)%N && (c2 =? SLASH)%N
              then Com :: Com :: classify Normal false r2
              else Com :: classify InBlockComment false r
          | [] => Com :: classify InBlockComment false r
          end
      end
  end.

(** The mode and escape parity in which the scanner leaves a text. *)
Fixpoint scan_end (m : mode) (esc : bool) (l : jsstring) : mode * bool :=
  match l with
  | [] => (m, esc)
  | c :: r =>
      match m with
      | Normal =>
          if (c =? DQ)%N && negb esc then scan_end InString false r
          else
            match r with
            | c2 :: r2 =>
                if (c =? SLASH)%N && (c2 =? SLASH)%N
                then scan_end InLineComment false r2
                else if (c =? SLASH)%N && (c2 =? STAR)%N
                then scan_end InBlockComment false r2
                else scan_end Normal (next_esc esc c) r
            | [] => scan_end Normal (next_esc esc c) r
            end
      | InString =>
          if (c =? DQ)%N && negb esc then scan_end Normal false r
          else scan_end InString (next_esc esc c) r
      | InLineComment =>
          match r with
          | c2 :: r2 =>
              if (c =? CR)%N && (c2 =? LF)%N then scan_end Normal false r2
              else if (c =? LF)%N then scan_end Normal false r
              else scan_end InLineComment false r
          | [] =>
              if (c =? LF)%N then scan_end Normal false r
              else scan_end InLineComment false r
          end
      | InBlockComment =>
          match r with
          | c2 :: r2 =>
              if (c =? STAR)%N && (c2 =? SLASH)%N then scan_end Normal false r2
              else scan_end InBlockComment false r
          | [] => scan_end InBlockComment false r
          end
      end
  end.

(** The closing brackets, and the four whitespace characters of JSON, which
    are the ones that keep a comma candidate pending. *)
Definition is_close (c : codeunit) : bool :=
  ((c =? RBRACE) || (c =? RBRACKET))%N.
Definition json_ws (c : codeunit) : bool :=
  ((c =? SPACE) || (c =? TAB) || (c =? CR) || (c =? LF))%N.

(** A classified text begins, whitespace and comments ignored, with a closing
    bracket. *)
Fixpoint closes (l : list (cls * codeunit)) : bool :=
  match l with
  | [] => false
  | (Com, _) :: r => closes r
  | (Str, _) :: _ => false
  | (Code, c) :: r => is_close c || (json_ws c && closes r)
  end.

(** Whether a comma candidate is pending after a character, given whether one
    was pending before it (section 4.1, step 8): a comma read while none is
    pending becomes the candidate; whitespace keeps a candidate, a closing
    bracket or any other code character ends it; strings and comments are not
    looked at. *)
Definition pend_step (tc pending : bool) (x : cls * codeunit) : bool :=
  match x with
  | (Code, c) =>
      if pending then (if is_close c then false else json_ws c)
      else tc && (c =? COMMA)%N
  | _ => pending
  end.

(** Whether a character is removed: the characters of a comment are, and so
    is a comma that becomes a candidate and is followed by a closing bracket. *)
Definition removed_here (tc pending : bool) (x : cls * codeunit)
           (r : list (cls * codeunit)) : bool :=
  match x with
  | (Com, _) => true
  | (Str, _) => false
  | (Code, c) => tc && negb pending && (c =? COMMA)%N && closes r
  end.

Fixpoint resolve (tc pending : bool) (l : list (cls * codeunit)) : list bool :=
  match l with
  | [] => []
  | x :: r => removed_here tc pending x r :: resolve tc (pend_step tc pending x) r
  end.

(** The classified text, and the removal mark of each of its characters. *)
Definition classified (s : jsstring) : list (cls * codeunit) :=
  combine (classify Normal false s) s.
Definition marks (tc : bool) (s : jsstring) : list bool :=
  resolve tc false (classified s).

(** The whitespace policy on one removed character. *)
Definition erase (ws : bool) (c : codeunit) : jsstring :=
  if ws then [blank c] else [].

(** The text with the marked characters removed. *)
Fixpoint render (ws : bool) (l : list (bool * codeunit)) : jsstring :=
  match l with
  | [] => []
  | (true, c) :: r => erase ws c ++ render ws r
  | (false, c) :: r => c :: render ws r
  end.

Definition strip_spec (ws tc : bool) (s : jsstring) : jsstring :=
  render ws (combine (marks tc s) s).

(** ** Further notions of the specification *)

(** The output for a classified text, when a comma candidate is or is not
    pending before it: [render] and [resolve] in one pass. *)
Fixpoint emit (ws tc pending : bool) (l : list (cls * codeunit)) : jsstring :=
  match l with
  | [] => []
  | x :: r =>
      (if removed_here tc pending x r then erase ws (snd x) else [snd x])
      ++ emit ws tc (pend_step tc pending x) r
  end.

(** Whether a comma candidate is pending when the character at position [i]
    of a classified text is read. *)
Definition pending_before (tc : bool) (cl : list (cls * codeunit)) (i : nat)
  : bool :=
  fold_left (pend_step tc) (firstn i cl) false.

(** The content of a properly escaped string literal: no quote in it is
    unescaped, and it ends in an even number of backslashes, so that the quote
    after it closes the literal.  [esc] is the escape parity before the
    text. *)
Fixpoint payload (esc : bool) (l : jsstring) : bool :=
  match l with
  | [] => negb esc
  | c :: r =>
      if (c =? DQ)%N && negb esc then false else payload (next_esc esc c) r
  end.

(** The length of the run of backslashes at the head of a text. *)
Fixpoint run_length (l : jsstring) : nat :=
  match l with
  | c :: r => if (c =? BACKSLASH)%N then S (run_length r) else 0
  | [] => 0
  end.

(** The number of consecutive backslashes immediately before position [i]. *)
Definition backslashes_before (s : jsstring) (i : nat) : nat :=
  run_length (rev (firstn i s)).

(** The output with whitespace preserved and trailing commas left alone: the
    characters of comments blanked, the others as they are. *)
Fixpoint wipe (ks : list cls) (l : jsstring) : jsstring :=
  match ks, l with
  | k :: ks', c :: l' =>
      (match k with Com => blank c | _ => c end) :: wipe ks' l'
  | _, _ => []
  end.

(** The mode and escape parity of a second pass, where the first pass is in
    the given mode: what was a comment is blank code now. *)
Definition calm (m : mode) : mode :=
  match m with
  | InLineComment | InBlockComment => Normal
  | _ => m
  end.

(** The escape parity of the second pass: a blanked comment ends in no
    backslash. *)
Definition calm_esc (m : mode) (e : bool) : bool :=
  match m with
  | InLineComment | InBlockComment => false
  | _ => e
  end.

(** ** The loop seen from the specification

    The notions that relate a state of the loop at a position of the text to
    the output the specification gives. *)

(** [strip(buffer, 0, 1) + buffer.slice(1)] *)
Definition strip_first (ws : bool) (b : jsstring) : jsstring :=
  strip ws b 0 1 ++ skipn 1 b.

(** The output from a position on, when [h] is the text held back before it:
    [h] loses its first character, the candidate comma, if one is pending and
    the rest of the text confirms it. *)
Definition rest_out (ws tc p : bool) (h : jsstring)
           (cl : list (cls * codeunit)) : jsstring :=
  (if p && closes cl then strip_first ws h else h) ++ emit ws tc p cl.

(** The mode of the scanner of the specification in a state of the loop. *)
Definition mode_of (st : state) : mode :=
  if isInsideString st then InString
  else match isInsideComment st with
       | NoComment => Normal
       | singleComment => InLineComment
       | multiComment => InBlockComment
       end.

(** Whether a comma candidate is recorded in a state. *)
Definition pending (st : state) : bool := negb (commaIndex st =? -1)%Z.

Section Expected.

Variables (ws tc : bool) (s : jsstring).

(** The escape parity that matters at position [i]. *)
Definition esc_at (st : state) (i : nat) : bool :=
  if inComment (isInsideComment st) then false else isEscaped s i.

(** The text held back at position [i]: the buffer and the part of the input
    from [offset] that is not in the buffer yet. *)
Definition held (st : state) (i : nat) : jsstring :=
  buffer st ++
  (if inComment (isInsideComment st)
   then strip ws s (offset st) i else slice s (offset st) i).

(** The part of it that is certain to be emitted as it is. *)
Definition kept (st : state) (i : nat) : jsstring :=
  buffer st ++
  (if inComment (isInsideComment st) then [] else slice s (offset st) i).

(** The scanner of the specification on the text from position [i] on, started
    in the mode of the state. *)
Definition ahead (st : state) (i : nat) : list (cls * codeunit) :=
  combine (classify (mode_of st) (esc_at st i) (skipn i s)) (skipn i s).

(** The output the specification gives, seen from the state [st] of the
    loop at position [i]. *)
Definition expected (st : state) (i : nat) : jsstring :=
  result st ++ rest_out ws tc (pending st) (held st i) (ahead st i).

(** What holds of the state each time the loop reaches its test. *)
Record Inv (st : state) (i : nat) : Prop := {
  inv_offset : offset st <= i;
  inv_index : i <= length s;
  inv_string :
    isInsideString st = true -> isInsideComment st = NoComment;
  inv_marker :
    inComment (isInsideComment st) = true ->
    offset st + 2 <= i
    /\ nth_error s (offset st) = Some SLASH
    /\ nth_error s (S (offset st))
       = Some (if isSingle (isInsideComment st) then SLASH else STAR);
  inv_off : tc = false -> commaIndex st = (-1)%Z;
  inv_comma :
    pending st = true ->
    exists k b,
      commaIndex st = Z.of_nat k
      /\ nth_error s k = Some COMMA
      /\ kept st i = COMMA :: b
      /\ (ws = true -> length (result st) = k);
  inv_length :
    ws = true -> length (result st) + length (buffer st) = offset st
}.

End Expected.

(** ** Notions for further properties *)

(** Whether a code unit occurs in a text. *)
Definition occurs (k : codeunit) (s : jsstring) : bool := existsb (N.eqb k) s.

(** [subsequence a b]: [a] is [b] with some characters left out. *)
Inductive subsequence : jsstring -> jsstring -> Prop :=
| sub_nil : subsequence [] []
| sub_keep c a b : subsequence a b -> subsequence (c :: a) (c :: b)
| sub_drop c a b : subsequence a b -> subsequence a (c :: b).

(** Whether the two characters that close a block comment occur, one after
    the other, in a text. *)
Fixpoint has_close (l : jsstring) : bool :=
  match l with
  | c :: r =>
      match r with
      | c2 :: _ => (c =? STAR)%N && (c2 =? SLASH)%N || has_close r
      | [] => false
      end
  | [] => false
  end.

(** The content of a string literal that is not closed: no quote in it is
    unescaped.  [esc] is the escape parity before the text. *)
Fixpoint open_payload (esc : bool) (l : jsstring) : bool :=
  match l with
  | [] => true
  | c :: r =>
      if (c =? DQ)%N && negb esc then false
      else open_payload (next_esc esc c) r
  end.

(** Whether a text ends in a slash. *)
Fixpoint ends_slash (l : jsstring) : bool :=
  match l with
  | [] => false
  | c :: r =>
      match r with
      | [] => (c =? SLASH)%N
      | _ :: _ => ends_slash r
      end
  end.

(** The mode and escape parity in which the scanner of the specification ends,
    seen from a state of the loop at a position of the text. *)
Definition ending (s : jsstring) (st : state) (i : nat) : mode * bool :=
  scan_end (mode_of st) (esc_at s st i) (skipn i s).

(** The mode and escape parity with which the scanner of the specification
    arrives at position [n] of a text, if it does: the second character of
    one of the two-character tokens is no position at which the scanner
    stands. *)
Fixpoint scan_at (m : mode) (esc : bool) (l : jsstring) (n : nat) {struct n}
  : option (mode * bool) :=
  match n with
  | 0 => Some (m, esc)
  | S n' =>
      match l with
      | [] => None
      | c :: r =>
          match m with
          | Normal =>
              if (c =? DQ)%N && negb esc then scan_at InString false r n'
              else
                match r with
                | c2 :: r2 =>
                    if (c =? SLASH)%N && (c2 =? SLASH)%N
                    then match n' with
                         | 0 => None
                         | S n'' => scan_at InLineComment false r2 n''
                         end
                    else if (c =? SLASH)%N && (c2 =? STAR)%N
                    then match n' with
                         | 0 => None
                         | S n'' => scan_at InBlockComment false r2 n''
                         end
                    else scan_at Normal (next_esc esc c) r n'
                | [] => scan_at Normal (next_esc esc c) r n'
                end
          | InString =>
              if (c =? DQ)%N && negb esc then scan_at Normal false r n'
              else scan_at InString (next_esc esc c) r n'
          | InLineComment =>
              match r with
              | c2 :: r2 =>
                  if (c =? CR)%N && (c2 =? LF)%N
                  then match n' with
                       | 0 => None
                       | S n'' => scan_at Normal false r2 n''
                       end
                  else if (c =? LF)%N then scan_at Normal false r n'
                  else scan_at InLineComment false r n'
              | [] =>
                  if (c =? LF)%N then scan_at Normal false r n'
                  else scan_at InLineComment false r n'
              end
          | InBlockComment =>
              match r with
              | c2 :: r2 =>
                  if (c =? STAR)%N && (c2 =? SLASH)%N
                  then match n' with
                       | 0 => None
                       | S n'' => scan_at Normal false r2 n''
                       end
                  else scan_at InBlockComment false r n'
              | [] => scan_at InBlockComment false r n'
              end
          end
      end
  end.

(** What relates a state of the loop at position [i] to the scanner of the
    specification: the scanner arrives at [i] in the mode of the state, and
    inside a comment [offset] is a position at which the scanner stood
    outside strings and comments, from which on every character read so far
    belongs to the comment. *)
Definition on_track (s : jsstring) (st : state) (i : nat) : Prop :=
  scan_at Normal false s i = Some (mode_of st, esc_at s st i)
  /\ (inComment (isInsideComment st) = true ->
      (exists e, scan_at Normal false s (offset st) = Some (Normal, e))
      /\ forall j, offset st <= j -> j < i ->
           nth_error (classify Normal false s) j = Some Com).

(** * Properties *)

(** ** Lists, slices and the whitespace policy *)

Lemma firstn_plus (A : Type) (a b : nat) (l : list A) :
  firstn (a + b) l = firstn a l ++ firstn b (skipn a l).
Proof.
  revert l; induction a as [|a IH]; intros l; simpl; [reflexivity|].
  destruct l as [|x l]; simpl.
  - now rewrite firstn_nil.
  - now rewrite IH.
Qed.

Lemma skipn_plus (A : Type) (a b : nat) (l : list A) :
  skipn (a + b) l = skipn b (skipn a l).
Proof.
  revert l; induction a as [|a IH]; intros l; simpl; [reflexivity|].
  destruct l as [|x l]; simpl.
  - now rewrite skipn_nil.
  - apply IH.
Qed.

Lemma slice_app (s : jsstring) (o i j : nat) :
  o <= i -> i <= j -> slice s o j = slice s o i ++ slice s i j.
Proof.
  intros Hoi Hij. unfold slice.
  replace (j - o) with ((i - o) + (j - i)) by lia.
  rewrite firstn_plus. f_equal. f_equal.
  rewrite <- skipn_plus. f_equal. lia.
Qed.

Lemma slice_same (s : jsstring) (i : nat) : slice s i i = [].
Proof. unfold slice. now rewrite Nat.sub_diag. Qed.

Lemma slice_to_end (s : jsstring) (o : nat) :
  slice s o (length s) = skipn o s.
Proof.
  unfold slice. apply firstn_all2. rewrite length_skipn. lia.
Qed.

Lemma slice_length (s : jsstring) (o i : nat) :
  i <= length s -> length (slice s o i) = i - o.
Proof.
  intros H. unfold slice. rewrite length_firstn, length_skipn. lia.
Qed.

(** What a position of the text looks like when the rest of the text from it
    is [c :: r]. *)
Section At.

Variables (s : jsstring) (i : nat) (c : codeunit) (r : jsstring).
Hypothesis Hsk : skipn i s = c :: r.

Lemma at_nth : nth_error s i = Some c.
Proof.
  rewrite <- (firstn_skipn i s) at 1. rewrite Hsk.
  assert (Hl : length (firstn i s) = i).
  { apply firstn_length_le.
    destruct (le_lt_dec i (length s)) as [H|H]; [exact H|].
    rewrite skipn_all2 in Hsk by lia. discriminate. }
  rewrite nth_error_app2 by lia. rewrite Hl, Nat.sub_diag. reflexivity.
Qed.

Lemma at_lt : i < length s.
Proof. apply nth_error_Some. rewrite at_nth. discriminate. Qed.

Lemma at_next : skipn (S i) s = r.
Proof.
  replace (S i) with (i + 1) by lia.
  rewrite skipn_plus, Hsk. reflexivity.
Qed.

Lemma at_next_nth : nth_error s (i + 1) = hd_error r.
Proof.
  replace (i + 1) with (S i) by lia.
  rewrite <- (firstn_skipn (S i) s) at 1. rewrite at_next.
  assert (Hl : length (firstn (S i) s) = S i).
  { apply firstn_length_le. pose proof at_lt. lia. }
  rewrite nth_error_app2 by lia. rewrite Hl, Nat.sub_diag.
  destruct r; reflexivity.
Qed.

Lemma at_slice1 : slice s i (S i) = [c].
Proof.
  unfold slice. replace (S i - i) with 1 by lia. rewrite Hsk. reflexivity.
Qed.

Lemma at_slice_snoc (o : nat) :
  o <= i -> slice s o (S i) = slice s o i ++ [c].
Proof.
  intros H. rewrite (slice_app s o i (S i)) by lia. now rewrite at_slice1.
Qed.

Lemma at_next2 (c2 : codeunit) (r2 : jsstring) :
  r = c2 :: r2 -> skipn (S (S i)) s = r2 /\ S i < length s.
Proof.
  intros E. replace (S (S i)) with (S i + 1) by lia.
  rewrite skipn_plus, at_next, E. split; [reflexivity|].
  destruct (le_lt_dec (length s) (S i)) as [H|H]; [|exact H].
  pose proof at_next as N. rewrite skipn_all2 in N by lia.
  subst r. discriminate.
Qed.

End At.

Section Policy.

Variable ws : bool.

Lemma strip_app (s : jsstring) (o i j : nat) :
  o <= i -> i <= j -> strip ws s o j = strip ws s o i ++ strip ws s i j.
Proof.
  intros Hoi Hij. unfold strip. destruct ws.
  - unfold stripWithWhitespace.
    rewrite (slice_app s o i j) by assumption. apply map_app.
  - reflexivity.
Qed.

Lemma strip_slice (s : jsstring) (o i : nat) :
  strip ws s o i = flat_map (erase ws) (slice s o i).
Proof.
  unfold strip, erase. destruct ws.
  - unfold stripWithWhitespace. induction (slice s o i); simpl; congruence.
  - unfold stripWithoutWhitespace. induction (slice s o i); simpl; congruence.
Qed.

Lemma strip_all_tail (s : jsstring) (o : nat) :
  strip_all ws (skipn o s) = strip ws s o (length s).
Proof.
  unfold strip_all. rewrite !strip_slice, !slice_to_end. reflexivity.
Qed.

Lemma strip_length (s : jsstring) (o i : nat) :
  ws = true -> i <= length s -> length (strip ws s o i) = i - o.
Proof.
  intros -> H. unfold strip, stripWithWhitespace.
  rewrite length_map. now apply slice_length.
Qed.

Lemma strip_first_cons (c : codeunit) (b : jsstring) :
  strip_first ws (c :: b) = erase ws c ++ b.
Proof.
  unfold strip_first. rewrite strip_slice. simpl. now rewrite app_nil_r.
Qed.

Lemma strip_first_length (b : jsstring) :
  ws = true -> length (strip_first ws b) = length b.
Proof.
  intros E. destruct b as [|c b].
  - rewrite E. reflexivity.
  - rewrite strip_first_cons, E. reflexivity.
Qed.

End Policy.

(** ** Escape parity *)

Lemma isEscaped_loop_acc (s : jsstring) (n k : nat) :
  isEscaped_loop s n k = isEscaped_loop s n 0 + k.
Proof.
  revert k; induction n as [|n IH]; intros k; simpl; [reflexivity|].
  destruct (char_is (nth_error s n) BACKSLASH); [|reflexivity].
  rewrite (IH (k + 1)), (IH 1). lia.
Qed.

Lemma odd_succ (n : nat) :
  negb ((n + 1) mod 2 =? 0) = negb (negb (n mod 2 =? 0)).
Proof.
  replace (n + 1) with (S n) by lia.
  pose proof (Nat.mod_upper_bound n 2).
  pose proof (Nat.mod_upper_bound (S n) 2).
  pose proof (Nat.div_mod_eq n 2). pose proof (Nat.div_mod_eq (S n) 2).
  destruct (Nat.eqb_spec (n mod 2) 0), (Nat.eqb_spec (S n mod 2) 0);
    simpl; try reflexivity; lia.
Qed.

Lemma isEscaped_S (s : jsstring) (i : nat) (c : codeunit) :
  nth_error s i = Some c ->
  isEscaped s (S i) = next_esc (isEscaped s i) c.
Proof.
  intros H. unfold isEscaped, next_esc. simpl. rewrite H. simpl.
  destruct (c =? BACKSLASH)%N; [|reflexivity].
  rewrite isEscaped_loop_acc. apply odd_succ.
Qed.

(** ** The loop computes what the specification describes *)

Lemma emit_render (ws tc p : bool) (l : list (cls * codeunit)) :
  emit ws tc p l = render ws (combine (resolve tc p l) (map snd l)).
Proof.
  revert p; induction l as [|x l IH]; intros p; simpl; [reflexivity|].
  rewrite IH. destruct (removed_here tc p x l); reflexivity.
Qed.

(** Induction for a scanner that reads one or two characters at a time. *)
Lemma scan_ind (P : jsstring -> Prop) :
  P [] ->
  (forall c r, P r -> (forall c2 r2, r = c2 :: r2 -> P r2) -> P (c :: r)) ->
  forall l, P l.
Proof.
  intros Hnil Hcons l.
  enough (H : P l /\ (forall c r, l = c :: r -> P r)) by apply H.
  induction l as [|c r [IH1 IH2]]; split.
  - exact Hnil.
  - discriminate.
  - apply Hcons; assumption.
  - intros c' r' E. injection E as -> ->. exact IH1.
Qed.

Lemma classify_length (l : jsstring) :
  forall m esc, length (classify m esc l) = length l.
Proof.
  induction l as [|c r IH1 IH2] using scan_ind; intros m esc;
    [reflexivity|].
  destruct m; simpl.
  - destruct ((c =? DQ)%N && negb esc); simpl; [now rewrite IH1|].
    destruct r as [|c2 r2]; [reflexivity|].
    destruct ((c =? SLASH)%N && (c2 =? SLASH)%N);
      [simpl; now rewrite (IH2 c2 r2)|].
    destruct ((c =? SLASH)%N && (c2 =? STAR)%N);
      [simpl; now rewrite (IH2 c2 r2)|].
    cbn [length]. now rewrite IH1.
  - destruct ((c =? DQ)%N && negb esc); simpl; now rewrite IH1.
  - destruct r as [|c2 r2].
    + destruct (c =? LF)%N; reflexivity.
    + destruct ((c =? CR)%N && (c2 =? LF)%N);
        [simpl; now rewrite (IH2 c2 r2)|].
      destruct (c =? LF)%N; cbn [length]; now rewrite IH1.
  - destruct r as [|c2 r2]; [reflexivity|].
    destruct ((c =? STAR)%N && (c2 =? SLASH)%N);
      [simpl; now rewrite (IH2 c2 r2)|].
    cbn [length]. now rewrite IH1.
Qed.

Lemma map_snd_combine (A B : Type) (l : list A) (l' : list B) :
  length l = length l' -> map snd (combine l l') = l'.
Proof.
  revert l'; induction l as [|a l IH]; intros [|b l'] H; simpl in *;
    try discriminate; [reflexivity|].
  f_equal. apply IH. lia.
Qed.

Lemma strip_spec_emit (ws tc : bool) (s : jsstring) :
  strip_spec ws tc s = emit ws tc false (classified s).
Proof.
  unfold strip_spec, marks. rewrite emit_render. unfold classified.
  rewrite map_snd_combine by apply classify_length. reflexivity.
Qed.

Section RestOut.

Variables (ws tc : bool).

Lemma strip_first_app (h y : jsstring) :
  h <> [] -> strip_first ws (h ++ y) = strip_first ws h ++ y.
Proof.
  destruct h as [|c h]; [congruence|]. intros _.
  simpl app. rewrite !strip_first_cons. now rewrite app_assoc.
Qed.

Lemma rest_out_com p h c cl :
  (p = true -> h <> []) ->
  rest_out ws tc p h ((Com, c) :: cl)
  = rest_out ws tc p (h ++ erase ws c) cl.
Proof.
  intros Hh. unfold rest_out. simpl.
  destruct (p && closes cl) eqn:E.
  - rewrite strip_first_app, <- !app_assoc; [reflexivity|].
    apply Hh. now destruct p.
  - now rewrite <- !app_assoc.
Qed.

Lemma rest_out_str p h c cl :
  (p = true -> closes cl = false) ->
  rest_out ws tc p h ((Str, c) :: cl) = rest_out ws tc p (h ++ [c]) cl.
Proof.
  intros Hc. unfold rest_out. simpl.
  replace (p && false) with false by now destruct p.
  replace (p && closes cl) with false.
  - now rewrite <- !app_assoc.
  - destruct p; [now rewrite Hc|reflexivity].
Qed.

(** A code character read while no candidate is pending and that is no
    comma to record. *)
Lemma rest_out_plain h c cl :
  tc && (c =? COMMA)%N = false ->
  rest_out ws tc false h ((Code, c) :: cl)
  = rest_out ws tc false (h ++ [c]) cl.
Proof.
  intros H. unfold rest_out. simpl.
  replace (tc && true && (c =? COMMA)%N) with (tc && (c =? COMMA)%N)
    by now destruct tc.
  rewrite H. simpl. now rewrite <- !app_assoc.
Qed.

(** A comma that becomes the candidate. *)
Lemma rest_out_record h cl :
  tc = true ->
  rest_out ws tc false h ((Code, COMMA) :: cl)
  = h ++ rest_out ws tc true [COMMA] cl.
Proof.
  intros ->. unfold rest_out. simpl.
  destruct (closes cl); simpl; [|reflexivity].
  rewrite strip_first_cons. now rewrite app_nil_r.
Qed.

(** Whitespace after a candidate. *)
Lemma rest_out_wait h c cl :
  h <> [] -> is_close c = false -> json_ws c = true ->
  rest_out ws tc true h ((Code, c) :: cl)
  = rest_out ws tc true (h ++ [c]) cl.
Proof.
  intros Hh Hc Hw. unfold rest_out. simpl. rewrite Hc, Hw. simpl.
  replace (tc && false) with false by now destruct tc. simpl.
  destruct (closes cl).
  - now rewrite strip_first_app, <- !app_assoc.
  - now rewrite <- !app_assoc.
Qed.

(** A closing bracket after a candidate. *)
Lemma rest_out_confirm h c cl :
  is_close c = true ->
  rest_out ws tc true h ((Code, c) :: cl)
  = strip_first ws h ++ rest_out ws tc false [c] cl.
Proof.
  intros Hc. unfold rest_out. simpl. rewrite Hc. simpl.
  replace (tc && false) with false by now destruct tc. reflexivity.
Qed.

(** Any other code character after a candidate. *)
Lemma rest_out_cancel h c cl :
  is_close c = false -> json_ws c = false ->
  rest_out ws tc true h ((Code, c) :: cl)
  = rest_out ws tc false (h ++ [c]) cl.
Proof.
  intros Hc Hw. unfold rest_out. simpl. rewrite Hc, Hw. simpl.
  replace (tc && false) with false by now destruct tc. simpl.
  now rewrite <- !app_assoc.
Qed.

End RestOut.

Section Refinement.

Variables (ws tc : bool) (s : jsstring).

Lemma Inv_initial : Inv ws tc s initial 0.
Proof.
  constructor; simpl; try lia; try discriminate; try reflexivity.
Qed.

Lemma held_nonempty st i :
  Inv ws tc s st i -> pending st = true -> held ws s st i <> [].
Proof.
  intros HI Hp. destruct (inv_comma ws tc s st i HI Hp) as (k & b & _ & _ & Hk & _).
  unfold held, kept in *.
  destruct (inComment (isInsideComment st)).
  - rewrite app_nil_r in Hk. rewrite Hk. discriminate.
  - rewrite Hk. discriminate.
Qed.

Lemma at_strip_snoc i c r o :
  skipn i s = c :: r -> o <= i ->
  strip ws s o (S i) = strip ws s o i ++ erase ws c.
Proof.
  intros Hsk H. rewrite (strip_app ws s o i (S i)) by lia.
  rewrite (strip_slice ws s i (S i)), (at_slice1 s i c r Hsk).
  simpl. now rewrite app_nil_r.
Qed.

Lemma json_ws_chain c :
  negb (c =? SPACE)%N && negb (c =? TAB)%N && negb (c =? CR)%N
  && negb (c =? LF)%N = negb (json_ws c).
Proof.
  unfold json_ws.
  destruct (c =? SPACE)%N, (c =? TAB)%N, (c =? CR)%N, (c =? LF)%N;
    reflexivity.
Qed.

(** The trailing-comma branch on a code character. *)
Lemma step_code st i c r cl :
  Inv ws tc s st i -> skipn i s = c :: r ->
  isInsideString st = false -> isInsideComment st = NoComment ->
  let st' := if tc then comma_step ws s i st else st in
  Inv ws tc s st' (S i)
  /\ isInsideString st' = false /\ isInsideComment st' = NoComment
  /\ result st' ++ rest_out ws tc (pending st') (held ws s st' (S i)) cl
     = result st ++ rest_out ws tc (pending st) (held ws s st i) ((Code, c) :: cl).
Proof.
  intros HI Hsk Hstr Hcom.
  pose proof (at_nth s i c r Hsk) as Hn.
  pose proof (at_lt s i c r Hsk) as Hlt.
  pose proof (at_slice1 s i c r Hsk) as Hs1.
  pose proof (held_nonempty st i HI) as Hne.
  destruct HI as [Ho Hi Hs Hm Hoff Hc Hl].
  pose proof (at_slice_snoc s i c r Hsk (offset st) Ho) as Hsn.
  destruct st as [str com o b res ci].
  unfold held, kept, pending in *.
  cbn [isInsideString isInsideComment offset buffer result commaIndex] in *.
  subst str com. cbn [inComment] in *.
  unfold comma_step.
  cbn [isInsideString isInsideComment offset buffer result commaIndex].
  rewrite Hn. cbn [char_is]. rewrite json_ws_chain.
  fold (is_close c).
  assert (Hz : (Z.of_nat i =? -1)%Z = false) by (apply Z.eqb_neq; lia).
  destruct tc eqn:Htc.
  - destruct (ci =? -1)%Z eqn:Hci; cbn [negb].
    + destruct (c =? COMMA)%N eqn:Hcomma.
      * apply N.eqb_eq in Hcomma. subst c.
        cbn [isInsideString isInsideComment offset buffer result commaIndex inComment].
        rewrite Hz. cbn [negb app]. rewrite Hs1.
        split; [|split; [reflexivity|split; [reflexivity|]]].
        -- constructor; unfold kept, pending;
             cbn [isInsideString isInsideComment offset buffer result commaIndex inComment];
             try lia; try discriminate; try congruence; try assumption.
           ++ intros _. exists i, []. rewrite Hs1.
              repeat split; try assumption.
              intros W. rewrite !length_app, slice_length by lia.
              specialize (Hl W). lia.
           ++ intros W. rewrite !length_app, slice_length by lia.
              specialize (Hl W). simpl. lia.
        -- rewrite rest_out_record by reflexivity.
           now rewrite <- !app_assoc.
      * rewrite rest_out_plain by (now rewrite Hcomma).
        cbn [isInsideString isInsideComment offset buffer result commaIndex inComment].
        rewrite Hci, Hsn, app_assoc. cbn [negb].
        split; [|split; [reflexivity|split; [reflexivity|reflexivity]]].
        constructor; unfold kept, pending;
          cbn [isInsideString isInsideComment offset buffer result commaIndex inComment];
          try lia; try discriminate; try congruence; try assumption.
    + specialize (Hne eq_refl).
      destruct (Hc eq_refl) as (k & bb & Hk & Hnk & Hkept & Hlen).
      destruct (is_close c) eqn:Hcl; [|destruct (json_ws c) eqn:Hw]; cbn [negb orb andb].
      * cbn [isInsideString isInsideComment offset buffer result commaIndex inComment].
        cbn [Z.eqb negb app]. rewrite Hs1.
        fold (strip_first ws (b ++ slice s o i)).
        rewrite rest_out_confirm by assumption.
        split; [|split; [reflexivity|split; [reflexivity|]]].
        -- constructor; unfold kept, pending;
             cbn [isInsideString isInsideComment offset buffer result commaIndex inComment];
             try lia; try discriminate; try congruence; try assumption.
           intros W. rewrite !length_app, strip_first_length, length_app, slice_length by (assumption || lia).
           specialize (Hl W). simpl. lia.
        -- now rewrite <- !app_assoc.
      * cbn [isInsideString isInsideComment offset buffer result commaIndex inComment].
        rewrite Hci. cbn [negb].
        rewrite rest_out_wait by assumption.
        rewrite Hsn, app_assoc.
        split; [|split; [reflexivity|split; [reflexivity|reflexivity]]].
        constructor; unfold kept, pending;
          cbn [isInsideString isInsideComment offset buffer result commaIndex inComment];
          try lia; try discriminate; try congruence; try assumption.
        intros _. exists k, (bb ++ [c]).
        rewrite Hsn, app_assoc, Hkept. repeat split; assumption.
      * cbn [isInsideString isInsideComment offset buffer result commaIndex inComment].
        cbn [Z.eqb negb app]. rewrite Hs1.
        rewrite rest_out_cancel by assumption.
        split; [|split; [reflexivity|split; [reflexivity|]]].
        -- constructor; unfold kept, pending;
             cbn [isInsideString isInsideComment offset buffer result commaIndex inComment];
             try lia; try discriminate; try congruence; try assumption.
           intros W. rewrite !length_app, slice_length by lia.
           specialize (Hl W). lia.
        -- now rewrite <- !app_assoc.
  - rewrite (Hoff eq_refl) in *.
    cbn [isInsideString isInsideComment offset buffer result commaIndex inComment].
    cbn [Z.eqb negb] in *.
    rewrite rest_out_plain by reflexivity.
    rewrite Hsn, app_assoc.
    split; [|split; [reflexivity|split; [reflexivity|reflexivity]]].
    constructor; unfold kept, pending;
      cbn [isInsideString isInsideComment offset buffer result commaIndex inComment];
      try lia; try discriminate; try congruence; try assumption.
Qed.

Lemma closes_in_string e r :
  closes (combine (classify InString e r) r) = false.
Proof.
  destruct r as [|c r]; [reflexivity|]. simpl.
  destruct (c =? DQ)%N eqn:Hdq; [|reflexivity].
  apply N.eqb_eq in Hdq. subst c. destruct e; reflexivity.
Qed.

(** Only the comment state and the comma state matter to the invariant of a
    state outside strings. *)
Lemma Inv_string_flag str' st i :
  Inv ws tc s st i ->
  (str' = true -> isInsideComment st = NoComment) ->
  Inv ws tc s (mkState str' (isInsideComment st) (offset st) (buffer st)
               (result st) (commaIndex st)) i.
Proof.
  intros [Ho Hi Hs Hm Hoff Hc Hl] H.
  constructor; try assumption.
Qed.

Ltac fields :=
  constructor; unfold kept, pending;
  cbn [isInsideString isInsideComment offset buffer result commaIndex
       inComment isSingle isMulti];
  try lia; try discriminate; try congruence; try assumption.

Lemma step_string st i c r :
  Inv ws tc s st i -> skipn i s = c :: r -> isInsideString st = true ->
  forall i' st', body ws tc s i st = (i', st') ->
  i <= i' /\ Inv ws tc s st' (S i') /\ expected ws tc s st' (S i') = expected ws tc s st i.
Proof.
  intros HI Hsk Hstr i' st' Hb.
  pose proof (at_nth s i c r Hsk) as Hn.
  pose proof (at_next s i c r Hsk) as Hnx.
  pose proof (at_lt s i c r Hsk) as Hlt.
  pose proof (isEscaped_S s i c Hn) as Hesc.
  pose proof (inv_string ws tc s st i HI Hstr) as Hcom.
  destruct ((c =? DQ)%N && negb (isEscaped s i)) eqn:Hq.
  - (* the closing quote *)
    apply andb_prop in Hq. destruct Hq as [Hdq He].
    apply N.eqb_eq in Hdq. subst c. apply negb_true_iff in He.
    pose proof (Inv_string_flag false st i HI (fun H => Hcom)) as HI'.
    set (q := mkState false (isInsideComment st) (offset st) (buffer st)
                      (result st) (commaIndex st)) in *.
    assert (Hbody : body ws tc s i st
                    = (i, if tc then comma_step ws s i q else q)).
    { unfold body, quote_step. rewrite Hcom, Hn, He, Hstr. simpl.
      subst q. rewrite Hcom. destruct tc; reflexivity. }
    rewrite Hbody in Hb. injection Hb as <- <-.
    destruct (step_code q i DQ r
                (combine (classify Normal false r) r) HI' Hsk eq_refl Hcom)
      as (HI2 & Hs2 & Hc2 & Heq).
    split; [lia|]. split; [exact HI2|].
    unfold expected, ahead, mode_of, esc_at. rewrite Hnx, Hsk.
    rewrite Hs2, Hc2, Hstr, Hcom. cbn [inComment].
    rewrite Hesc, He. simpl classify. simpl combine.
    exact Heq.
  - (* a character of the string *)
    assert (Hbody : body ws tc s i st = (i, st)).
    { unfold body, quote_step. rewrite Hcom, Hn. simpl.
      destruct (c =? DQ)%N; simpl in Hq |- *.
      - rewrite Hq. simpl. now rewrite Hstr.
      - now rewrite Hstr. }
    rewrite Hbody in Hb. injection Hb as <- <-.
    split; [lia|]. split.
    + destruct HI as [Ho Hi Hs Hm Hoff Hc Hl].
      pose proof (at_slice_snoc s i c r Hsk (offset st) Ho) as Hsn.
      constructor; try assumption; try lia.
      * rewrite Hcom. discriminate.
      * intros Hp. destruct (Hc Hp) as (k & bb & Hk & Hnk & Hkept & Hlen).
        exists k, (bb ++ [c]). unfold kept in *. rewrite Hcom in *.
        cbn [inComment] in *. rewrite Hsn, app_assoc, Hkept.
        repeat split; assumption.
    + unfold expected, ahead, mode_of, esc_at. rewrite Hnx, Hsk.
      rewrite Hstr, Hcom. cbn [inComment]. rewrite Hesc.
      simpl classify. rewrite Hq. simpl combine.
      rewrite rest_out_str by (intros _; apply closes_in_string).
      unfold held. rewrite Hcom. cbn [inComment].
      rewrite (at_slice_snoc s i c r Hsk (offset st) (inv_offset ws tc s st i HI)).
      now rewrite app_assoc.
Qed.

Lemma rest_out_lf p h cl :
  (p = true -> h <> []) ->
  rest_out ws tc p h ((Code, LF) :: cl) = rest_out ws tc p (h ++ [LF]) cl.
Proof.
  intros Hh. destruct p.
  - apply rest_out_wait; [now apply Hh|reflexivity|reflexivity].
  - apply rest_out_plain. now destruct tc.
Qed.

Lemma step_line st i c r :
  Inv ws tc s st i -> skipn i s = c :: r ->
  isInsideString st = false -> isInsideComment st = singleComment ->
  forall i' st', body ws tc s i st = (i', st') ->
  i <= i' /\ Inv ws tc s st' (S i') /\ expected ws tc s st' (S i') = expected ws tc s st i.
Proof.
  intros HI Hsk Hstr Hcom i' st' Hb.
  pose proof (at_nth s i c r Hsk) as Hn.
  pose proof (at_next_nth s i c r Hsk) as Hn1.
  pose proof (at_next s i c r Hsk) as Hnx.
  pose proof (at_lt s i c r Hsk) as Hlt.
  pose proof (at_slice1 s i c r Hsk) as Hs1.
  pose proof (held_nonempty st i HI) as Hne.
  destruct HI as [Ho Hi Hs Hm Hoff Hc Hl].
  pose proof (at_strip_snoc i c r (offset st) Hsk Ho) as Hpn.
  unfold body, quote_step in Hb. rewrite Hcom, Hstr, Hn, Hn1 in Hb.
  unfold pair_is in Hb. cbn [inComment isSingle isMulti negb andb char_is] in Hb.
  rewrite Hstr in Hb.
  unfold expected, ahead, mode_of, esc_at, held, kept, pending in *.
  rewrite Hsk, Hstr, Hcom in *.
  cbn [inComment isSingle isMulti] in *.
  specialize (Hm eq_refl). destruct Hm as (Hm1 & Hm2 & Hm3).
  destruct st as [str com o b res ci].
  cbn [isInsideString isInsideComment offset buffer result commaIndex] in *.
  subst str com.
  destruct (match r with
            | c2 :: _ => (c =? CR)%N && (c2 =? LF)%N
            | [] => false end) eqn:Hcrlf.
  - (* the comment ends at a carriage return and line feed *)
    destruct r as [|c2 r2]; [discriminate|].
    apply andb_prop in Hcrlf. destruct Hcrlf as [H1 H2].
    apply N.eqb_eq in H1, H2. subst c c2.
    simpl in Hb. injection Hb as <- <-.
    destruct (at_next2 s i CR _ Hsk LF r2 eq_refl) as [Hnx2 Hlt2].
    pose proof (at_slice1 s (S i) LF r2 Hnx) as Hs2.
    replace (i + 1) with (S i) by lia.
    cbn [isInsideString isInsideComment offset buffer result commaIndex
         inComment].
    rewrite Hnx2, Hs2.
    rewrite (isEscaped_S s (S i) LF (at_nth s (S i) LF r2 Hnx)).
    split; [lia|]. split.
    + fields.
      * intros Hp. destruct (Hc Hp) as (k & bb & Hk & Hnk & Hkept & Hlen).
        rewrite app_nil_r in Hkept.
        exists k, (bb ++ strip ws s o (S i) ++ [LF]). subst b.
        rewrite ?Hs2, <- !app_assoc. repeat split; assumption.
      * intros W. rewrite length_app, strip_length by (assumption || lia).
        specialize (Hl W). lia.
    + simpl classify. simpl combine.
      rewrite rest_out_com by assumption.
      rewrite rest_out_lf.
      * rewrite Hpn, <- !app_assoc. reflexivity.
      * intros Hp. specialize (Hne Hp). intros E.
        apply app_eq_nil in E. tauto.
  - destruct (c =? LF)%N eqn:Hlf.
    + (* the comment ends at a line feed *)
      apply N.eqb_eq in Hlf. subst c.
      assert (Hb' : (i, mkState false NoComment i (b ++ strip ws s o i) res ci)
                    = (i', st')).
      { destruct r as [|c2 r2]; simpl in Hb, Hcrlf;
          rewrite ?Hcrlf, ?andb_false_r in Hb; exact Hb. }
      clear Hb. injection Hb' as <- <-.
      cbn [isInsideString isInsideComment offset buffer result commaIndex
           inComment].
      rewrite Hnx, Hs1. rewrite (isEscaped_S s i LF Hn).
      split; [lia|]. split.
      * fields.
        -- intros Hp. destruct (Hc Hp) as (k & bb & Hk & Hnk & Hkept & Hlen).
           rewrite app_nil_r in Hkept.
           exists k, (bb ++ strip ws s o i ++ [LF]). subst b.
           rewrite ?Hs1, <- !app_assoc. repeat split; assumption.
        -- intros W. rewrite length_app, strip_length by (assumption || lia).
           specialize (Hl W). lia.
      * assert (Hcl : classify InLineComment false (LF :: r)
                      = Code :: classify Normal false r)
          by (destruct r; reflexivity).
        rewrite Hcl. simpl combine.
        rewrite rest_out_lf by assumption.
        now rewrite <- !app_assoc.
    + (* a character of the comment *)
      assert (Hb' : (i, mkState false singleComment o b res ci) = (i', st')).
      { destruct r as [|c2 r2]; simpl in Hb, Hcrlf;
          rewrite ?Hcrlf, ?Hlf, ?andb_false_r in Hb; exact Hb. }
      clear Hb. injection Hb' as <- <-.
      cbn [isInsideString isInsideComment offset buffer result commaIndex
           inComment].
      rewrite Hnx.
      split; [lia|]. split.
      * fields.
        intros _. repeat split; try lia; assumption.
      * assert (Hcl : classify InLineComment false (c :: r)
                      = Com :: classify InLineComment false r).
        { destruct r as [|c2 r2]; simpl in *; rewrite ?Hcrlf, Hlf;
            reflexivity. }
        rewrite Hcl. simpl combine.
        rewrite rest_out_com by assumption.
        rewrite Hpn. now rewrite <- !app_assoc.
Qed.

Lemma step_block st i c r :
  Inv ws tc s st i -> skipn i s = c :: r ->
  isInsideString st = false -> isInsideComment st = multiComment ->
  forall i' st', body ws tc s i st = (i', st') ->
  i <= i' /\ Inv ws tc s st' (S i') /\ expected ws tc s st' (S i') = expected ws tc s st i.
Proof.
  intros HI Hsk Hstr Hcom i' st' Hb.
  pose proof (at_nth s i c r Hsk) as Hn.
  pose proof (at_next_nth s i c r Hsk) as Hn1.
  pose proof (at_next s i c r Hsk) as Hnx.
  pose proof (at_lt s i c r Hsk) as Hlt.
  pose proof (held_nonempty st i HI) as Hne.
  destruct HI as [Ho Hi Hs Hm Hoff Hc Hl].
  pose proof (at_strip_snoc i c r (offset st) Hsk Ho) as Hpn.
  unfold body, quote_step in Hb. rewrite Hcom, Hstr, Hn, Hn1 in Hb.
  unfold pair_is in Hb. cbn [inComment isSingle isMulti negb andb char_is] in Hb.
  rewrite Hstr in Hb.
  unfold expected, ahead, mode_of, esc_at, held, kept, pending in *.
  rewrite Hsk, Hstr, Hcom in *.
  cbn [inComment isSingle isMulti] in *.
  specialize (Hm eq_refl). destruct Hm as (Hm1 & Hm2 & Hm3).
  destruct st as [str com o b res ci].
  cbn [isInsideString isInsideComment offset buffer result commaIndex] in *.
  subst str com.
  destruct (match r with
            | c2 :: _ => (c =? STAR)%N && (c2 =? SLASH)%N
            | [] => false end) eqn:Hend.
  - (* the end of the comment *)
    destruct r as [|c2 r2]; [discriminate|].
    apply andb_prop in Hend. destruct Hend as [H1 H2].
    apply N.eqb_eq in H1, H2. subst c c2.
    simpl in Hb. injection Hb as <- <-.
    destruct (at_next2 s i STAR _ Hsk SLASH r2 eq_refl) as [Hnx2 Hlt2].
    pose proof (at_strip_snoc (S i) SLASH r2 o Hnx ltac:(lia)) as Hpn2.
    replace (i + 1 + 1) with (S (S i)) by lia.
    replace (i + 1) with (S i) by lia.
    cbn [isInsideString isInsideComment offset buffer result commaIndex
         inComment].
    rewrite Hnx2, slice_same, app_nil_r.
    rewrite (isEscaped_S s (S i) SLASH (at_nth s (S i) SLASH r2 Hnx)).
    split; [lia|]. split.
    + fields.
      * intros Hp. destruct (Hc Hp) as (k & bb & Hk & Hnk & Hkept & Hlen).
        rewrite app_nil_r in Hkept.
        exists k, (bb ++ strip ws s o (S (S i))). subst b.
        rewrite slice_same, app_nil_r. repeat split; assumption.
      * intros W. rewrite length_app, strip_length by (assumption || lia).
        specialize (Hl W). lia.
    + simpl classify. simpl combine.
      rewrite rest_out_com by assumption.
      rewrite rest_out_com.
      * rewrite Hpn2, Hpn, <- !app_assoc. reflexivity.
      * intros Hp. specialize (Hne Hp). intros E.
        apply app_eq_nil in E. tauto.
  - (* a character of the comment *)
    assert (Hb' : (i, mkState false multiComment o b res ci) = (i', st')).
    { destruct r as [|c2 r2]; simpl in Hb, Hend;
        rewrite ?Hend, ?andb_false_r in Hb; exact Hb. }
    clear Hb. injection Hb' as <- <-.
    cbn [isInsideString isInsideComment offset buffer result commaIndex
         inComment].
    rewrite Hnx.
    split; [lia|]. split.
    + fields.
      intros _. repeat split; try lia; assumption.
    + assert (Hcl : classify InBlockComment false (c :: r)
                    = Com :: classify InBlockComment false r).
      { destruct r as [|c2 r2]; simpl in *; rewrite ?Hend; reflexivity. }
      rewrite Hcl. simpl combine.
      rewrite rest_out_com by assumption.
      rewrite Hpn. now rewrite <- !app_assoc.
Qed.

Lemma strip_same i : strip ws s i i = [].
Proof. now rewrite strip_slice, slice_same. Qed.

Lemma step_normal st i c r :
  Inv ws tc s st i -> skipn i s = c :: r ->
  isInsideString st = false -> isInsideComment st = NoComment ->
  forall i' st', body ws tc s i st = (i', st') ->
  i <= i' /\ Inv ws tc s st' (S i') /\ expected ws tc s st' (S i') = expected ws tc s st i.
Proof.
  intros HI Hsk Hstr Hcom i' st' Hb.
  pose proof (at_nth s i c r Hsk) as Hn.
  pose proof (at_next_nth s i c r Hsk) as Hn1.
  pose proof (at_next s i c r Hsk) as Hnx.
  pose proof (at_lt s i c r Hsk) as Hlt.
  pose proof (isEscaped_S s i c Hn) as Hesc.
  pose proof (held_nonempty st i HI) as Hne.
  pose proof (at_slice_snoc s i c r Hsk (offset st) (inv_offset ws tc s st i HI))
    as Hsn.
  destruct ((c =? DQ)%N && negb (isEscaped s i)) eqn:Hq.
  - (* the opening quote *)
    apply andb_prop in Hq. destruct Hq as [Hdq He].
    apply N.eqb_eq in Hdq. subst c. apply negb_true_iff in He.
    assert (Hbody : body ws tc s i st
                    = (i, mkState true (isInsideComment st) (offset st)
                                  (buffer st) (result st) (commaIndex st))).
    { unfold body, quote_step. rewrite Hcom, Hn, He, Hstr. reflexivity. }
    rewrite Hbody in Hb. injection Hb as <- <-.
    split; [lia|]. split.
    + destruct HI as [Ho Hi Hs Hm Hoff Hc Hl].
      fields.
      * rewrite Hcom. discriminate.
      * intros Hp. destruct (Hc Hp) as (k & bb & Hk & Hnk & Hkept & Hlen).
        exists k, (bb ++ [DQ]). unfold kept in *. rewrite Hcom in *.
        cbn [inComment] in *. rewrite Hsn, app_assoc, Hkept.
        repeat split; assumption.
    + unfold expected, ahead, mode_of, esc_at, held, pending.
      cbn [isInsideString isInsideComment offset buffer result commaIndex].
      rewrite Hnx, Hsk, Hstr, Hcom. cbn [inComment].
      rewrite Hesc, He. simpl classify. simpl combine.
      rewrite rest_out_str by (intros _; apply closes_in_string).
      now rewrite Hsn, app_assoc.
  - assert (Hqs : quote_step s i st = st).
    { unfold quote_step. rewrite Hcom, Hn. simpl.
      destruct (c =? DQ)%N; simpl in Hq |- *; [now rewrite Hq|reflexivity]. }
    unfold body in Hb. rewrite Hqs, Hcom, Hstr, Hn, Hn1 in Hb.
    unfold pair_is in Hb.
    cbn [inComment isSingle isMulti negb andb char_is] in Hb.
    destruct (match r with
              | c2 :: _ => (c =? SLASH)%N && (c2 =? SLASH)%N
              | [] => false end) eqn:T1;
      [|destruct (match r with
                  | c2 :: _ => (c =? SLASH)%N && (c2 =? STAR)%N
                  | [] => false end) eqn:T2].
    + (* a line comment begins *)
      destruct r as [|c2 r2]; [discriminate|].
      apply andb_prop in T1. destruct T1 as [H1 H2].
      apply N.eqb_eq in H1, H2. subst c c2.
      simpl in Hb. injection Hb as <- <-.
      destruct (at_next2 s i SLASH _ Hsk SLASH r2 eq_refl) as [Hnx2 Hlt2].
      pose proof (at_strip_snoc i SLASH _ i Hsk (le_n i)) as Hp1.
      pose proof (at_strip_snoc (S i) SLASH r2 i Hnx ltac:(lia)) as Hp2.
      rewrite strip_same in Hp1. simpl in Hp1.
      replace (i + 1) with (S i) by lia.
      split; [lia|]. split.
      * destruct HI as [Ho Hi Hs Hm Hoff Hc Hl].
        fields.
        -- intros _. repeat split; [lia|assumption|].
           apply (at_nth s (S i) SLASH r2 Hnx).
        -- intros Hp. destruct (Hc Hp) as (k & bb & Hk & Hnk & Hkept & Hlen).
           unfold kept in Hkept. rewrite Hcom in Hkept.
           exists k, bb. rewrite app_nil_r. repeat split; assumption.
        -- intros W. rewrite length_app, slice_length by lia.
           specialize (Hl W). lia.
      * unfold expected, ahead, mode_of, esc_at, held, pending in *.
        cbn [isInsideString isInsideComment offset buffer result commaIndex].
        rewrite Hnx2, Hsk, Hstr, Hcom in *. cbn [inComment] in *.
        simpl classify. simpl combine.
        rewrite rest_out_com by assumption.
        rewrite rest_out_com.
        -- rewrite Hp2, Hp1, <- !app_assoc. reflexivity.
        -- intros Hp. specialize (Hne Hp). intros E.
           apply app_eq_nil in E. tauto.
    + (* a block comment begins *)
      destruct r as [|c2 r2]; [discriminate|].
      apply andb_prop in T2. destruct T2 as [H1 H2].
      apply N.eqb_eq in H1, H2. subst c c2.
      simpl in Hb. injection Hb as <- <-.
      destruct (at_next2 s i SLASH _ Hsk STAR r2 eq_refl) as [Hnx2 Hlt2].
      pose proof (at_strip_snoc i SLASH _ i Hsk (le_n i)) as Hp1.
      pose proof (at_strip_snoc (S i) STAR r2 i Hnx ltac:(lia)) as Hp2.
      rewrite strip_same in Hp1. simpl in Hp1.
      replace (i + 1) with (S i) by lia.
      split; [lia|]. split.
      * destruct HI as [Ho Hi Hs Hm Hoff Hc Hl].
        fields.
        -- intros _. repeat split; [lia|assumption|].
           apply (at_nth s (S i) STAR r2 Hnx).
        -- intros Hp. destruct (Hc Hp) as (k & bb & Hk & Hnk & Hkept & Hlen).
           unfold kept in Hkept. rewrite Hcom in Hkept.
           exists k, bb. rewrite app_nil_r. repeat split; assumption.
        -- intros W. rewrite length_app, slice_length by lia.
           specialize (Hl W). lia.
      * unfold expected, ahead, mode_of, esc_at, held, pending in *.
        cbn [isInsideString isInsideComment offset buffer result commaIndex].
        rewrite Hnx2, Hsk, Hstr, Hcom in *. cbn [inComment] in *.
        simpl classify. simpl combine.
        rewrite rest_out_com by assumption.
        rewrite rest_out_com.
        -- rewrite Hp2, Hp1, <- !app_assoc. reflexivity.
        -- intros Hp. specialize (Hne Hp). intros E.
           apply app_eq_nil in E. tauto.
    + (* a code character *)
      assert (Hb' : (i, if tc then comma_step ws s i st else st) = (i', st')).
      { destruct r as [|c2 r2]; simpl in Hb, T1, T2;
          rewrite ?T1, ?T2, ?andb_false_r, ?andb_true_r in Hb;
          destruct tc; exact Hb. }
      clear Hb. injection Hb' as <- <-.
      destruct (step_code st i c r
                  (combine (classify Normal (next_esc (isEscaped s i) c) r) r)
                  HI Hsk Hstr Hcom) as (HI2 & Hs2 & Hc2 & Heq).
      split; [lia|]. split; [exact HI2|].
      unfold expected, ahead, mode_of, esc_at.
      rewrite Hnx, Hsk, Hs2, Hc2, Hstr, Hcom. cbn [inComment].
      rewrite Hesc.
      assert (Hcl : classify Normal (isEscaped s i) (c :: r)
                    = Code :: classify Normal (next_esc (isEscaped s i) c) r).
      { destruct r as [|c2 r2]; simpl in *; rewrite Hq, ?T1, ?T2;
          reflexivity. }
      rewrite Hcl. simpl combine. exact Heq.
Qed.

(** One iteration of the loop keeps the invariant and the expected ws tc s output. *)
Lemma step st i :
  Inv ws tc s st i -> i < length s ->
  forall i' st', body ws tc s i st = (i', st') ->
  i <= i' /\ Inv ws tc s st' (S i') /\ expected ws tc s st' (S i') = expected ws tc s st i.
Proof.
  intros HI Hlt.
  destruct (skipn i s) as [|c r] eqn:Hsk.
  - apply (f_equal (@length codeunit)) in Hsk.
    rewrite length_skipn in Hsk. simpl in Hsk. lia.
  - destruct (isInsideString st) eqn:Hstr.
    + now apply (step_string st i c r).
    + destruct (isInsideComment st) eqn:Hcom.
      * now apply (step_normal st i c r).
      * now apply (step_line st i c r).
      * now apply (step_block st i c r).
Qed.

(** The loop runs to the end of the text: with [length s - i] iterations
    allowed it stops because the test [index < jsonString.length] fails. *)
Lemma loop_spec fuel :
  forall i st,
    Inv ws tc s st i -> length s - i <= fuel ->
    fst (loop ws tc s fuel i st) = length s
    /\ Inv ws tc s (snd (loop ws tc s fuel i st)) (length s)
    /\ expected ws tc s (snd (loop ws tc s fuel i st)) (length s) = expected ws tc s st i.
Proof.
  induction fuel as [|fuel IH]; intros i st HI Hf.
  - assert (i = length s) by (pose proof (inv_index ws tc s st i HI); lia).
    subst i. simpl. auto.
  - simpl. destruct (i <? length s) eqn:Hlt.
    + apply Nat.ltb_lt in Hlt.
      destruct (body ws tc s i st) as [i' st'] eqn:Hb.
      destruct (step st i HI Hlt i' st' Hb) as (Hle & HI' & Heq).
      destruct (IH (S i') st' HI' ltac:(lia)) as (H1 & H2 & H3).
      split; [exact H1|]. split; [exact H2|]. congruence.
    + apply Nat.ltb_ge in Hlt.
      assert (i = length s) by (pose proof (inv_index ws tc s st i HI); lia).
      subst i. simpl. auto.
Qed.

Lemma finish_expected st :
  Inv ws tc s st (length s) -> finish ws s st = expected ws tc s st (length s).
Proof.
  intros HI. unfold finish, expected, ahead, rest_out, held.
  rewrite skipn_all. simpl. rewrite andb_false_r, app_nil_r.
  rewrite strip_all_tail, slice_to_end. reflexivity.
Qed.

Lemma final_Inv : Inv ws tc s (final_state ws tc s) (length s).
Proof.
  unfold final_state.
  apply (loop_spec (length s) 0 initial Inv_initial). lia.
Qed.

(** The function of the source computes the output the specification
    describes. *)
Lemma strip_string_spec : strip_string ws tc s = strip_spec ws tc s.
Proof.
  unfold strip_string. rewrite (finish_expected _ final_Inv).
  unfold final_state.
  destruct (loop_spec (length s) 0 initial Inv_initial ltac:(lia))
    as (_ & _ & H).
  rewrite H, strip_spec_emit. unfold expected, rest_out, held, ahead.
  reflexivity.
Qed.

End Refinement.

(** ** The concrete cases of the specification *)

Example case_line_comment :
  strip_string true false
    (js "{" ++ [DQ] ++ js "a" ++ [DQ] ++ js ":1 // comment" ++ [LF] ++ js "}")
  = js "{" ++ [DQ] ++ js "a" ++ [DQ] ++ js ":1 " ++ repeat SPACE 10
    ++ [LF] ++ js "}".
Proof. reflexivity. Qed.

Example case_block_comment :
  strip_string false false
    (js "/* block */ {" ++ [DQ] ++ js "a" ++ [DQ] ++ js ":1}")
  = js " {" ++ [DQ] ++ js "a" ++ [DQ] ++ js ":1}".
Proof. reflexivity. Qed.

Example case_address :
  strip_string true false
    (js "{" ++ [DQ] ++ js "url" ++ [DQ] ++ js ":" ++ [DQ] ++ js "http://x"
     ++ [DQ] ++ js "}")
  = js "{" ++ [DQ] ++ js "url" ++ [DQ] ++ js ":" ++ [DQ] ++ js "http://x"
    ++ [DQ] ++ js "}".
Proof. reflexivity. Qed.

Example case_trailing_comma :
  strip_string true true (js "{" ++ [DQ] ++ js "a" ++ [DQ] ++ js ":1,}")
  = js "{" ++ [DQ] ++ js "a" ++ [DQ] ++ js ":1 }".
Proof. reflexivity. Qed.

Example case_inner_comma :
  strip_string true true
    (js "{" ++ [DQ] ++ js "a" ++ [DQ] ++ js ":1, " ++ [DQ] ++ js "b" ++ [DQ]
     ++ js ":2}")
  = js "{" ++ [DQ] ++ js "a" ++ [DQ] ++ js ":1, " ++ [DQ] ++ js "b" ++ [DQ]
    ++ js ":2}".
Proof. reflexivity. Qed.

Example case_unterminated :
  strip_string true false (js "// unterminated") = repeat SPACE 15.
Proof. reflexivity. Qed.

(** ** The error surface *)

(** C8.  A call throws the [TypeError] exactly when the argument is not a
    string, and then nothing else is returned; on a string, whatever it
    contains and whatever the options, the call returns a string, the loop
    having run to the end of the text. *)
Theorem C8_error_surface :
  (forall t o, stripJsonComments (VOther t) o = TypeError t)
  /\ (forall s o,
        stripJsonComments (VString s) o
        = Returned (strip_string (get_whitespace o) (get_trailingCommas o) s)
        /\ fst (loop (get_whitespace o) (get_trailingCommas o) s
                     (length s) 0 initial) = length s)
  /\ (forall v o,
        (exists t, stripJsonComments v o = TypeError t)
        <-> ~ (exists s, v = VString s)).
Proof.
  split; [reflexivity|]. split.
  - intros s o. split; [reflexivity|].
    apply (loop_spec _ _ s (length s) 0 initial (Inv_initial _ _ s)). lia.
  - intros v o. split.
    + intros [t H] [s ->]. discriminate.
    + intros H. destruct v as [s|t].
      * exfalso. apply H. now exists s.
      * now exists t.
Qed.

Lemma C8_witness :
  (exists t, stripJsonComments (VOther TNumber) no_options = TypeError t)
  /\ ~ (exists s, VOther TNumber = VString s).
Proof.
  split.
  - exists TNumber. apply (proj1 C8_error_surface).
  - apply (proj1 (proj2 (proj2 C8_error_surface) (VOther TNumber) no_options)).
    exists TNumber. reflexivity.
Defined.

(** ** Escape parity *)

Lemma firstn_S_nth (s : jsstring) (n : nat) (c : codeunit) :
  nth_error s n = Some c -> firstn (S n) s = firstn n s ++ [c].
Proof.
  revert s; induction n as [|n IH]; intros [|x s] H; simpl in *;
    try discriminate.
  - now injection H as ->.
  - now rewrite (IH s H).
Qed.

Lemma isEscaped_loop_count (s : jsstring) (n : nat) :
  n <= length s -> isEscaped_loop s n 0 = backslashes_before s n.
Proof.
  unfold backslashes_before. induction n as [|n IH]; intros Hn.
  - reflexivity.
  - destruct (nth_error s n) as [c|] eqn:Hc.
    + rewrite (firstn_S_nth s n c Hc), rev_app_distr. simpl. rewrite Hc.
      simpl. destruct (c =? BACKSLASH)%N; [|reflexivity].
      rewrite isEscaped_loop_acc, IH by lia. lia.
    + apply nth_error_None in Hc. lia.
Qed.

Lemma isEscaped_odd (s : jsstring) (i : nat) :
  i <= length s -> isEscaped s i = Nat.odd (backslashes_before s i).
Proof.
  intros H. unfold isEscaped. rewrite (isEscaped_loop_count s i H).
  generalize (backslashes_before s i) as n. intros n.
  rewrite <- Nat.negb_even. f_equal.
  destruct (Nat.even n) eqn:E.
  - apply Nat.even_spec in E. destruct E as [k ->].
    apply Nat.eqb_eq. rewrite Nat.mul_comm. apply Nat.Div0.mod_mul.
  - apply Nat.eqb_neq. intros M.
    assert (Nat.even n = true); [|congruence].
    apply Nat.even_spec. exists (n / 2).
    pose proof (Nat.div_mod_eq n 2). lia.
Qed.

Lemma comma_step_string (ws : bool) (s : jsstring) (i : nat) (st : state) :
  isInsideString (comma_step ws s i st) = isInsideString st.
Proof.
  unfold comma_step.
  repeat match goal with
         | |- context [if ?b then _ else _] => destruct b
         end; reflexivity.
Qed.

Lemma body_string (ws tc : bool) (s : jsstring) (i : nat) (st : state) :
  isInsideString (snd (body ws tc s i st))
  = isInsideString (quote_step s i st).
Proof.
  unfold body.
  repeat match goal with
         | |- context [if ?b then _ else _] => destruct b eqn:?
         end; simpl; rewrite ?comma_step_string; congruence.
Qed.

(** C7.  A double quote read outside comments toggles the in-string state
    exactly when the number of backslashes immediately before it is even;
    when it is odd the state is left as it was. *)
Theorem C7_escape_parity (ws tc : bool) (s : jsstring) (i : nat) (st : state) :
  nth_error s i = Some DQ ->
  inComment (isInsideComment st) = false ->
  isInsideString (snd (body ws tc s i st))
  = if Nat.even (backslashes_before s i)
    then negb (isInsideString st)
    else isInsideString st.
Proof.
  intros Hq Hc. rewrite body_string. unfold quote_step.
  rewrite Hc, Hq. simpl.
  rewrite isEscaped_odd
    by (apply Nat.lt_le_incl, nth_error_Some; rewrite Hq; discriminate).
  rewrite <- Nat.negb_even.
  destruct (Nat.even (backslashes_before s i)); reflexivity.
Qed.

(** Two backslashes and a quote: the quote toggles; one backslash and a quote:
    it does not. *)
Lemma C7_witness :
  isInsideString (snd (body true false [BACKSLASH; BACKSLASH; DQ] 2 initial))
  = true
  /\ isInsideString (snd (body true false [BACKSLASH; DQ] 1 initial)) = false.
Proof.
  split.
  - rewrite (C7_escape_parity true false [BACKSLASH; BACKSLASH; DQ] 2 initial);
      reflexivity.
  - rewrite (C7_escape_parity true false [BACKSLASH; DQ] 1 initial);
      reflexivity.
Defined.

(** ** The end of the text *)

Lemma strip_all_eq (ws : bool) (t : jsstring) :
  strip_all ws t = if ws then map blank t else [].
Proof.
  unfold strip_all, strip. destruct ws; [|reflexivity].
  unfold stripWithWhitespace, slice. rewrite Nat.sub_0_r. simpl.
  now rewrite firstn_all.
Qed.

(** C5.  With whitespace preserved the output is as long as the input,
    whether or not trailing commas are stripped. *)
Theorem C5_length_invariant (tc : bool) (s : jsstring) :
  length (strip_string true tc s) = length s.
Proof.
  unfold strip_string, finish.
  pose proof (final_Inv true tc s) as HI.
  pose proof (inv_length _ _ _ _ _ HI eq_refl) as Hl.
  pose proof (inv_offset _ _ _ _ _ HI) as Ho.
  rewrite strip_all_eq, !length_app.
  assert (Ht : length (if inComment (isInsideComment (final_state true tc s))
                       then map blank (skipn (offset (final_state true tc s)) s)
                       else skipn (offset (final_state true tc s)) s)
               = length s - offset (final_state true tc s)).
  { destruct (inComment _); rewrite ?length_map, length_skipn; reflexivity. }
  rewrite Ht. lia.
Qed.

(** C10.  When the text ends while a comma is still a candidate, that comma
    is in the output as it is: the output is [result], the comma, and the
    text buffered after the comma, followed by what the whitespace policy
    leaves of a comment that is still open. *)
Theorem C10_pending_comma_at_end (ws : bool) (s : jsstring) :
  pending (final_state ws true s) = true ->
  let st := final_state ws true s in
  exists k b,
    commaIndex st = Z.of_nat k
    /\ nth_error s k = Some COMMA
    /\ buffer st ++
       (if inComment (isInsideComment st) then [] else skipn (offset st) s)
       = COMMA :: b
    /\ strip_string ws true s
       = result st ++ COMMA :: b ++
         (if inComment (isInsideComment st)
          then strip_all ws (skipn (offset st) s) else [])
    /\ (ws = true -> length (result st) = k
                     /\ nth_error (strip_string ws true s) k = Some COMMA).
Proof.
  intros Hp st. pose proof (final_Inv ws true s) as HI. fold st in HI, Hp.
  destruct (inv_comma _ _ _ _ _ HI Hp) as (k & b & Hk & Hn & Hkept & Hlen).
  unfold kept in Hkept. rewrite slice_to_end in Hkept.
  assert (Hout : strip_string ws true s
                 = result st ++ COMMA :: b ++
                   (if inComment (isInsideComment st)
                    then strip_all ws (skipn (offset st) s) else [])).
  { unfold strip_string, finish. fold st.
    destruct (inComment (isInsideComment st)).
    - rewrite app_nil_r in Hkept. rewrite Hkept. reflexivity.
    - rewrite app_nil_r, <- Hkept. reflexivity. }
  exists k, b. repeat split; try assumption.
  - now apply Hlen.
  - rewrite Hout, nth_error_app2 by (rewrite (Hlen H); lia).
    rewrite (Hlen H), Nat.sub_diag. reflexivity.
Qed.

(** The comma of [[1, /* x] is still a candidate at the end and stays. *)
Lemma C10_witness :
  pending (final_state true true (js "[1, /* x")) = true
  /\ exists k,
       nth_error (js "[1, /* x") k = Some COMMA
       /\ nth_error (strip_string true true (js "[1, /* x")) k = Some COMMA.
Proof.
  split; [reflexivity|].
  destruct (C10_pending_comma_at_end true (js "[1, /* x") eq_refl)
    as (k & b & _ & Hn & _ & _ & H).
  exists k. split; [exact Hn|]. apply (H eq_refl).
Defined.

(** ** The output, character by character *)

Lemma resolve_nth (tc : bool) (cl : list (cls * codeunit)) :
  forall p i x,
    nth_error cl i = Some x ->
    nth_error (resolve tc p cl) i
    = Some (removed_here tc (fold_left (pend_step tc) (firstn i cl) p) x
                         (skipn (S i) cl)).
Proof.
  induction cl as [|y cl IH]; intros p [|i] x H; simpl in *;
    try discriminate.
  - now injection H as ->.
  - now apply IH.
Qed.

Lemma nth_error_combine (A B : Type) (l : list A) (l' : list B) (i : nat) :
  nth_error (combine l l') i
  = match nth_error l i, nth_error l' i with
    | Some a, Some b => Some (a, b)
    | _, _ => None
    end.
Proof.
  revert l' i; induction l as [|a l IH]; intros [|b l'] [|i]; simpl;
    try reflexivity.
  - now destruct (nth_error l i).
  - apply IH.
Qed.

Lemma classified_nth (s : jsstring) (i : nat) (k : cls) (c : codeunit) :
  nth_error (classified s) i = Some (k, c) -> nth_error s i = Some c.
Proof.
  unfold classified. rewrite nth_error_combine.
  destruct (nth_error (classify Normal false s) i); [|discriminate].
  destruct (nth_error s i); [|discriminate]. congruence.
Qed.

Lemma render_preserving (l : list (bool * codeunit)) :
  render true l
  = map (fun x : bool * codeunit => if fst x then blank (snd x) else snd x) l.
Proof.
  induction l as [|[[|] c] l IH]; simpl; congruence.
Qed.

(** With whitespace preserved, the character at a position of the output is
    the character of the input there, blanked if it is marked. *)
Lemma output_nth (tc : bool) (s : jsstring) (i : nat) (k : cls) (c : codeunit) :
  nth_error (classified s) i = Some (k, c) ->
  nth_error (strip_string true tc s) i
  = Some (if removed_here tc (pending_before tc (classified s) i) (k, c)
                          (skipn (S i) (classified s))
          then blank c else c).
Proof.
  intros H. rewrite strip_string_spec. unfold strip_spec.
  rewrite render_preserving, nth_error_map, nth_error_combine.
  unfold marks. rewrite (resolve_nth tc (classified s) false i (k, c) H).
  rewrite (classified_nth s i k c H). reflexivity.
Qed.

(** C2 as the specification states it fails: a tab inside a comment is no
    newline, and it is not replaced by a space. *)
Lemma C2_counterexample :
  ~ (forall s i c,
        nth_error (classified s) i = Some (Com, c) -> c <> LF ->
        nth_error (strip_string true false s) i = Some SPACE).
Proof.
  intros H.
  specialize (H (js "/*" ++ [TAB] ++ js "*/") 2 TAB eq_refl).
  assert (TAB <> LF) as N by discriminate.
  specialize (H N). vm_compute in H. discriminate.
Qed.

(** C2, amended.  With whitespace preserved, a character inside a comment
    span is replaced by one space unless it is a whitespace character of
    JavaScript (the class [\s]: line feed, but also tab, carriage return, form
    feed and the like), which is kept; and the first concrete case of the
    specification: the comment of ten characters becomes ten spaces and the
    line feed stays. *)
Theorem C2_comment_blanking :
  (forall tc s i c,
      nth_error (classified s) i = Some (Com, c) ->
      nth_error (strip_string true tc s) i
      = Some (if isWhitespace c then c else SPACE))
  /\ stripJsonComments
       (VString (js "{" ++ [DQ] ++ js "a" ++ [DQ] ++ js ":1 // comment"
                 ++ [LF] ++ js "}")) no_options
     = Returned (js "{" ++ [DQ] ++ js "a" ++ [DQ] ++ js ":1 "
                 ++ repeat SPACE 10 ++ [LF] ++ js "}").
Proof.
  split; [|reflexivity].
  intros tc s i c H. rewrite (output_nth tc s i Com c H). reflexivity.
Qed.

Lemma C2_witness :
  nth_error (strip_string true false (js "/*" ++ [TAB; LF; STAR] ++ js "*/")) 2
  = Some TAB
  /\ nth_error (strip_string true false (js "/*" ++ [TAB; LF; STAR] ++ js "*/")) 3
     = Some LF
  /\ nth_error (strip_string true false (js "/*" ++ [TAB; LF; STAR] ++ js "*/")) 4
     = Some SPACE.
Proof.
  split; [|split].
  - apply (proj1 C2_comment_blanking false
                 (js "/*" ++ [TAB; LF; STAR] ++ js "*/") 2 TAB eq_refl).
  - apply (proj1 C2_comment_blanking false
                 (js "/*" ++ [TAB; LF; STAR] ++ js "*/") 3 LF eq_refl).
  - apply (proj1 C2_comment_blanking false
                 (js "/*" ++ [TAB; LF; STAR] ++ js "*/") 4 STAR eq_refl).
Defined.

(** C1 as the specification states it fails: in [[1,,]] the second comma is
    outside strings and comments and the next character is the closing
    bracket, and the comma stays. *)
Lemma C1_counterexample :
  ~ (forall s i,
        nth_error (classified s) i = Some (Code, COMMA) ->
        (nth_error (strip_string true true s) i = Some SPACE
         <-> closes (skipn (S i) (classified s)) = true)).
Proof.
  intros H.
  destruct (H (js "[1,,]") 3 eq_refl) as [_ H2].
  specialize (H2 eq_refl). vm_compute in H2. discriminate.
Qed.

(** C1, amended.  With trailing commas stripped, a comma outside strings and
    comments is removed (a space with whitespace preserved) exactly when no
    earlier comma is still a candidate as it is read and it is followed,
    ignoring comments and the whitespace of JSON (space, tab, carriage return,
    line feed), by a closing bracket.  A comma read while an earlier comma is
    still pending is no candidate and stays, as every other comma does. *)
Theorem C1_trailing_comma (s : jsstring) (i : nat) :
  nth_error (classified s) i = Some (Code, COMMA) ->
  let trailing :=
    negb (pending_before true (classified s) i)
    && closes (skipn (S i) (classified s)) in
  nth_error (marks true s) i = Some trailing
  /\ (forall ws,
         strip_string ws true s = render ws (combine (marks true s) s))
  /\ nth_error (strip_string true true s) i
     = Some (if trailing then SPACE else COMMA).
Proof.
  intros H trailing.
  assert (Hr : removed_here true (pending_before true (classified s) i)
                            (Code, COMMA) (skipn (S i) (classified s))
               = trailing).
  { unfold removed_here, trailing. simpl. now rewrite andb_true_r. }
  split; [|split].
  - unfold marks. rewrite (resolve_nth true (classified s) false i _ H).
    f_equal. exact Hr.
  - intros ws. apply strip_string_spec.
  - rewrite (output_nth true s i Code COMMA H), Hr.
    destruct trailing; reflexivity.
Qed.

Lemma C1_witness :
  nth_error (strip_string true true (js "[1, 2 , ]")) 2 = Some COMMA
  /\ nth_error (strip_string true true (js "[1, 2 , ]")) 6 = Some SPACE
  /\ nth_error (strip_string true true (js "[1,,]")) 3 = Some COMMA.
Proof.
  split; [|split].
  - apply (proj2 (proj2 (C1_trailing_comma (js "[1, 2 , ]") 2 eq_refl))).
  - apply (proj2 (proj2 (C1_trailing_comma (js "[1, 2 , ]") 6 eq_refl))).
  - apply (proj2 (proj2 (C1_trailing_comma (js "[1,,]") 3 eq_refl))).
Defined.

(** ** String literals *)

(** The scanner reads a text that is followed by a quote as it reads the text
    alone: a quote is the second character of no two-character token. *)
Lemma classify_before_quote (rest : jsstring) (pre : jsstring) :
  forall m e,
    classify m e (pre ++ DQ :: rest)
    = classify m e pre
      ++ classify (fst (scan_end m e pre)) (snd (scan_end m e pre))
                  (DQ :: rest).
Proof.
  induction pre as [|c r IH1 IH2] using scan_ind; intros m e;
    [reflexivity|].
  destruct m.
  - cbn [classify scan_end app].
    destruct ((c =? DQ)%N && negb e); [now rewrite IH1|].
    destruct r as [|c2 r2].
    + cbn [app classify scan_end fst snd]. rewrite !andb_false_r.
      reflexivity.
    + cbn [app].
      destruct ((c =? SLASH)%N && (c2 =? SLASH)%N);
        [now rewrite (IH2 c2 r2 eq_refl)|].
      destruct ((c =? SLASH)%N && (c2 =? STAR)%N);
        [now rewrite (IH2 c2 r2 eq_refl)|].
      change (c2 :: r2 ++ DQ :: rest) with ((c2 :: r2) ++ DQ :: rest).
      now rewrite IH1.
  - cbn [classify scan_end app].
    destruct ((c =? DQ)%N && negb e); now rewrite IH1.
  - cbn [classify scan_end app].
    destruct r as [|c2 r2].
    + cbn [app classify scan_end fst snd]. rewrite !andb_false_r.
      destruct (c =? LF)%N; reflexivity.
    + cbn [app].
      destruct ((c =? CR)%N && (c2 =? LF)%N);
        [now rewrite (IH2 c2 r2 eq_refl)|].
      change (c2 :: r2 ++ DQ :: rest) with ((c2 :: r2) ++ DQ :: rest).
      destruct (c =? LF)%N; now rewrite IH1.
  - cbn [classify scan_end app].
    destruct r as [|c2 r2].
    + cbn [app classify scan_end fst snd]. rewrite !andb_false_r.
      reflexivity.
    + cbn [app].
      destruct ((c =? STAR)%N && (c2 =? SLASH)%N);
        [now rewrite (IH2 c2 r2 eq_refl)|].
      change (c2 :: r2 ++ DQ :: rest) with ((c2 :: r2) ++ DQ :: rest).
      now rewrite IH1.
Qed.

Lemma classify_payload (post : jsstring) (body : jsstring) :
  forall e,
    payload e body = true ->
    classify InString e (body ++ DQ :: post)
    = repeat Str (length body) ++ Code :: classify Normal false post.
Proof.
  induction body as [|c r IH]; intros e H; simpl in H |- *.
  - apply negb_true_iff in H. subst e. reflexivity.
  - destruct ((c =? DQ)%N && negb e); [discriminate|].
    now rewrite (IH _ H).
Qed.

Lemma combine_app (A B : Type) (l1 l2 : list A) (m1 m2 : list B) :
  length l1 = length m1 ->
  combine (l1 ++ l2) (m1 ++ m2) = combine l1 m1 ++ combine l2 m2.
Proof.
  revert m1; induction l1 as [|a l1 IH]; intros [|b m1] H; simpl in *;
    try discriminate; [reflexivity|].
  f_equal. apply IH. lia.
Qed.

Section Emit.

Variables (ws tc : bool).

(** The output for a text in two parts: something for the first part, of the
    same length if whitespace is preserved, then the output for the second. *)
Lemma emit_app (cl1 cl2 : list (cls * codeunit)) :
  forall p,
  exists A,
    emit ws tc p (cl1 ++ cl2)
    = A ++ emit ws tc (fold_left (pend_step tc) cl1 p) cl2
    /\ (ws = true -> length A = length cl1).
Proof.
  induction cl1 as [|x cl1 IH]; intros p.
  - exists []. split; reflexivity.
  - destruct (IH (pend_step tc p x)) as (A & HA & HL).
    exists ((if removed_here tc p x (cl1 ++ cl2)
             then erase ws (snd x) else [snd x]) ++ A).
    split.
    + simpl. now rewrite HA, app_assoc.
    + intros W. rewrite length_app, (HL W). simpl. unfold erase. rewrite W.
      destruct (removed_here tc p x (cl1 ++ cl2)); reflexivity.
Qed.

(** The content of a string comes out as it is and leaves the comma state as
    it was. *)
Lemma emit_string (l : jsstring) (cl : list (cls * codeunit)) (p : bool) :
  emit ws tc p (combine (repeat Str (length l)) l ++ cl)
  = l ++ emit ws tc p cl.
Proof.
  induction l as [|c l IH]; simpl; [reflexivity|]. now rewrite IH.
Qed.

End Emit.

(** C6.  A string literal that opens where the scanner is outside strings and
    comments, with an unescaped quote, and whose content is properly escaped,
    is in the output as it is, quotes included, whatever comment markers or
    commas it contains and whatever the options; with whitespace preserved it
    is at the place it has in the input. *)
Theorem C6_string_safety (ws tc : bool) (pre body post : jsstring) :
  scan_end Normal false pre = (Normal, false) ->
  payload false body = true ->
  exists A B,
    strip_string ws tc (pre ++ DQ :: body ++ DQ :: post)
    = A ++ DQ :: body ++ DQ :: B
    /\ (ws = true -> length A = length pre).
Proof.
  intros Hpre Hbody.
  rewrite strip_string_spec, strip_spec_emit. unfold classified.
  rewrite classify_before_quote, Hpre. cbn [fst snd].
  rewrite combine_app by apply classify_length.
  cbn [classify andb negb N.eqb DQ Pos.eqb].
  rewrite (classify_payload post body false Hbody).
  cbn [combine].
  rewrite (combine_app _ _ (repeat Str (length body)) _ body (DQ :: post))
    by apply repeat_length.
  cbn [combine].
  destruct (emit_app ws tc (combine (classify Normal false pre) pre)
              ((Str, DQ)
               :: combine (repeat Str (length body)) body
                  ++ (Code, DQ) :: combine (classify Normal false post) post)
              false)
    as (A & HA & HL).
  rewrite HA.
  set (p := fold_left (pend_step tc)
                      (combine (classify Normal false pre) pre) false).
  exists A, (emit ws tc (pend_step tc p (Code, DQ))
                  (combine (classify Normal false post) post)).
  split.
  - f_equal. cbn [emit removed_here pend_step snd app].
    f_equal. rewrite emit_string. f_equal.
    cbn [emit removed_here snd].
    replace (tc && negb p && (DQ =? COMMA)%N
             && closes (combine (classify Normal false post) post))
      with false
      by (cbn; now rewrite andb_false_r).
    reflexivity.
  - intros W. rewrite (HL W), length_combine, classify_length. lia.
Qed.

(** The third concrete case of the specification: the address in
    [{"url":"http://x"}] keeps its two slashes. *)
Lemma C6_witness :
  exists A B,
    strip_string true false
      (js "{" ++ [DQ] ++ js "url" ++ [DQ] ++ js ":"
       ++ DQ :: js "http://x" ++ DQ :: js "}")
    = A ++ DQ :: js "http://x" ++ DQ :: B
    /\ length A = 7.
Proof.
  destruct (C6_string_safety true false
              (js "{" ++ [DQ] ++ js "url" ++ [DQ] ++ js ":")
              (js "http://x") (js "}") eq_refl eq_refl)
    as (A & B & H & HL).
  exists A, B. split; [exact H|]. apply (HL eq_refl).
Defined.

(** ** A second pass *)

Lemma emit_wipe (ks : list cls) :
  forall l p, emit true false p (combine ks l) = wipe ks l.
Proof.
  induction ks as [|k ks IH]; intros [|c l] p; simpl; try reflexivity.
  rewrite IH. destruct k; reflexivity.
Qed.

Lemma strip_string_wipe (s : jsstring) :
  strip_string true false s = wipe (classify Normal false s) s.
Proof.
  rewrite strip_string_spec, strip_spec_emit. apply emit_wipe.
Qed.

(** A blanked character is a whitespace character, so none of the characters
    the scanner reacts to. *)
Lemma blank_whitespace (c : codeunit) : isWhitespace (blank c) = true.
Proof.
  unfold blank. destruct (isWhitespace c) eqn:E; [exact E|reflexivity].
Qed.

Lemma whitespace_inert (c : codeunit) :
  isWhitespace c = true ->
  (c =? DQ)%N = false /\ (c =? SLASH)%N = false
  /\ (c =? STAR)%N = false /\ (c =? BACKSLASH)%N = false.
Proof.
  intros H.
  repeat split;
    match goal with
    | |- (c =? ?k)%N = false =>
        destruct (N.eqb_spec c k) as [->|]; [discriminate H|reflexivity]
    end.
Qed.

(** A character that is neither a quote nor a slash is code in normal mode. *)
Lemma classify_normal_plain (c : codeunit) (r : jsstring) (e : bool) :
  (c =? DQ)%N = false -> (c =? SLASH)%N = false ->
  classify Normal e (c :: r) = Code :: classify Normal (next_esc e c) r.
Proof.
  intros H1 H2. simpl. rewrite H1, H2. simpl. destruct r; reflexivity.
Qed.

Lemma classify_normal_blank (c : codeunit) (r : jsstring) (e : bool) :
  isWhitespace c = true ->
  classify Normal e (c :: r) = Code :: classify Normal false r.
Proof.
  intros H. destruct (whitespace_inert c H) as (H1 & H2 & _ & H3).
  rewrite classify_normal_plain by assumption.
  unfold next_esc. now rewrite H3.
Qed.

Lemma wipe_head (m : mode) (e : bool) (c : codeunit) (r : jsstring) :
  exists c' t,
    wipe (classify m e (c :: r)) (c :: r) = c' :: t
    /\ (c' = c \/ isWhitespace c' = true).
Proof.
  pose proof (classify_length (c :: r) m e) as H.
  destruct (classify m e (c :: r)) as [|k ks]; [discriminate|].
  simpl. destruct k; eauto using blank_whitespace.
Qed.

(** A second pass over the output of the first finds no comment. *)
Lemma wipe_stable (l : jsstring) :
  forall m e,
    wipe (classify (calm m) (calm_esc m e) (wipe (classify m e l) l))
         (wipe (classify m e l) l)
    = wipe (classify m e l) l.
Proof.
  induction l as [|c r IH1 IH2] using scan_ind; intros m e;
    [destruct m; reflexivity|].
  destruct m; cbn [calm calm_esc].
  - (* normal mode *)
    cbn [classify].
    destruct ((c =? DQ)%N && negb e) eqn:Hq.
    { cbn [wipe classify]. rewrite Hq. cbn [wipe]. f_equal.
      apply (IH1 InString false). }
    destruct r as [|c2 r2].
    { cbn [wipe classify]. rewrite Hq. reflexivity. }
    destruct ((c =? SLASH)%N && (c2 =? SLASH)%N) eqn:T1;
      [|destruct ((c =? SLASH)%N && (c2 =? STAR)%N) eqn:T2].
    + cbn [wipe].
      rewrite !classify_normal_blank by apply blank_whitespace.
      cbn [wipe]. do 2 f_equal. apply (IH2 c2 r2 eq_refl InLineComment false).
    + cbn [wipe].
      rewrite !classify_normal_blank by apply blank_whitespace.
      cbn [wipe]. do 2 f_equal. apply (IH2 c2 r2 eq_refl InBlockComment false).
    + cbn [wipe].
      destruct (wipe_head Normal (next_esc e c) c2 r2)
        as (c' & t & Ht & Hc').
      specialize (IH1 Normal (next_esc e c)). cbn [calm calm_esc] in IH1.
      rewrite Ht in IH1 |- *.
      cbn [classify]. rewrite Hq.
      assert (N1 : (c =? SLASH)%N && (c' =? SLASH)%N = false).
      { destruct Hc' as [->|W]; [exact T1|].
        destruct (whitespace_inert c' W) as (_ & -> & _).
        apply andb_false_r. }
      assert (N2 : (c =? SLASH)%N && (c' =? STAR)%N = false).
      { destruct Hc' as [->|W]; [exact T2|].
        destruct (whitespace_inert c' W) as (_ & _ & -> & _).
        apply andb_false_r. }
      rewrite N1, N2. cbn [wipe]. f_equal. exact IH1.
  - (* inside a string *)
    cbn [classify].
    destruct ((c =? DQ)%N && negb e) eqn:Hq.
    + cbn [wipe classify]. rewrite Hq. cbn [wipe]. f_equal.
      apply (IH1 Normal false).
    + cbn [wipe classify]. rewrite Hq. cbn [wipe]. f_equal.
      apply (IH1 InString (next_esc e c)).
  - (* inside a line comment *)
    assert (Hlf : isWhitespace LF = true) by reflexivity.
    assert (Hcr : isWhitespace CR = true) by reflexivity.
    cbn [classify].
    destruct r as [|c2 r2].
    { destruct (c =? LF)%N eqn:E.
      - apply N.eqb_eq in E. subst c. reflexivity.
      - cbn [wipe]. rewrite classify_normal_blank by apply blank_whitespace.
        reflexivity. }
    destruct ((c =? CR)%N && (c2 =? LF)%N) eqn:T.
    + apply andb_prop in T. destruct T as [E1 E2].
      apply N.eqb_eq in E1, E2. subst c c2.
      cbn [wipe].
      rewrite classify_normal_blank by apply blank_whitespace.
      rewrite classify_normal_blank by exact Hlf.
      cbn [wipe]. do 2 f_equal. apply (IH2 LF r2 eq_refl Normal false).
    + destruct (c =? LF)%N eqn:E.
      * apply N.eqb_eq in E. subst c. cbn [wipe].
        rewrite classify_normal_blank by exact Hlf.
        cbn [wipe]. f_equal. apply (IH1 Normal false).
      * cbn [wipe].
        rewrite classify_normal_blank by apply blank_whitespace.
        cbn [wipe]. f_equal. apply (IH1 InLineComment false).
  - (* inside a block comment *)
    cbn [classify].
    destruct r as [|c2 r2].
    { cbn [wipe]. rewrite classify_normal_blank by apply blank_whitespace.
      reflexivity. }
    destruct ((c =? STAR)%N && (c2 =? SLASH)%N) eqn:T.
    + cbn [wipe].
      rewrite !classify_normal_blank by apply blank_whitespace.
      cbn [wipe]. do 2 f_equal. apply (IH2 c2 r2 eq_refl Normal false).
    + cbn [wipe].
      rewrite classify_normal_blank by apply blank_whitespace.
      cbn [wipe]. f_equal. apply (IH1 InBlockComment false).
Qed.

(** C4 as the specification states it fails.  With whitespace removed, a
    comment between a backslash and a quote goes and leaves the quote
    escaped, so that the second pass sees the end of the text as a comment;
    with whitespace preserved and trailing commas stripped, a form feed left
    over from a comment ends a comma candidate in the second pass only. *)
Lemma C4_counterexample :
  strip_string false false
    (strip_string false false ([BACKSLASH] ++ js "/**/" ++ [DQ] ++ js "//a"))
  <> strip_string false false ([BACKSLASH] ++ js "/**/" ++ [DQ] ++ js "//a")
  /\ strip_string false true
       (strip_string false true ([BACKSLASH] ++ js "/**/" ++ [DQ] ++ js "//a"))
     <> strip_string false true ([BACKSLASH] ++ js "/**/" ++ [DQ] ++ js "//a")
  /\ strip_string true true
       (strip_string true true (js ",/*" ++ [FF] ++ js "*/,]"))
     <> strip_string true true (js ",/*" ++ [FF] ++ js "*/,]").
Proof.
  split; [|split]; vm_compute; discriminate.
Qed.

(** C4, amended.  With the default options (whitespace preserved, trailing
    commas left alone) a second pass changes nothing. *)
Theorem C4_idempotent_default (s : jsstring) :
  strip_string true false (strip_string true false s)
  = strip_string true false s
  /\ stripJsonComments
       (VString (strip_string (get_whitespace no_options)
                              (get_trailingCommas no_options) s)) no_options
     = stripJsonComments (VString s) no_options.
Proof.
  assert (H : strip_string true false (strip_string true false s)
              = strip_string true false s).
  { rewrite (strip_string_wipe (strip_string true false s)).
    rewrite (strip_string_wipe s).
    apply (wipe_stable s Normal false). }
  split; [exact H|].
  unfold stripJsonComments. f_equal. exact H.
Qed.

(** ** The carriage return before a line feed *)

(** C3.  With whitespace removed, a line comment that ends at a carriage
    return and line feed takes the carriage return with it: [index] is
    advanced before the span is stripped.  The line feed alone is kept in
    both modes, and the pair is kept with whitespace preserved, where the
    carriage return passes through [replace(/\S/g, ' ')] unchanged. *)
Theorem C3_carriage_return_lost :
  strip_string false false (js "{}//c" ++ [CR; LF] ++ js "1")
  = js "{}" ++ [LF] ++ js "1"
  /\ strip_string true false (js "{}//c" ++ [CR; LF] ++ js "1")
     = js "{}   " ++ [CR; LF] ++ js "1"
  /\ strip_string false false (js "{}//c" ++ [LF] ++ js "1")
     = js "{}" ++ [LF] ++ js "1".
Proof.
  split; [|split]; vm_compute; reflexivity.
Qed.

(** * Further properties of the source *)

(** ** What the output is made of *)

Lemma classified_length (s : jsstring) : length (classified s) = length s.
Proof.
  unfold classified. rewrite length_combine, classify_length. lia.
Qed.

Lemma classified_some (s : jsstring) (i : nat) (c : codeunit) :
  nth_error s i = Some c -> exists k, nth_error (classified s) i = Some (k, c).
Proof.
  intros H. unfold classified. rewrite nth_error_combine, H.
  destruct (nth_error (classify Normal false s) i) as [k|] eqn:E.
  - now exists k.
  - apply nth_error_None in E. rewrite classify_length in E.
    assert (i < length s) by (apply nth_error_Some; congruence). lia.
Qed.

Lemma emit_length (ws tc : bool) (cl : list (cls * codeunit)) :
  forall p, length (emit ws tc p cl) <= length cl.
Proof.
  induction cl as [|x cl IH]; intros p; simpl; [lia|].
  rewrite length_app. specialize (IH (pend_step tc p x)).
  destruct (removed_here tc p x cl); unfold erase; destruct ws; simpl; lia.
Qed.

(** X1.  The function computes, for every text and both options, what the
    scanner with four modes describes: each character is classified as string
    content, comment or code, a comma is marked when it becomes a candidate
    and a closing bracket confirms it, and the output is the text with the
    characters of comments and the marked commas blanked or left out. *)
Theorem X1_computes_the_scanner (ws tc : bool) (s : jsstring) :
  strip_string ws tc s = render ws (combine (marks tc s) s)
  /\ length (marks tc s) = length s.
Proof.
  split.
  - apply strip_string_spec.
  - unfold marks. generalize false.
    rewrite <- (classified_length s).
    induction (classified s) as [|x cl IH]; intros p; simpl;
      [reflexivity|]. now rewrite IH.
Qed.

(** X2.  The output is never longer than the input. *)
Theorem X2_never_longer (ws tc : bool) (s : jsstring) :
  length (strip_string ws tc s) <= length s.
Proof.
  rewrite strip_string_spec, strip_spec_emit.
  rewrite <- (classified_length s). apply emit_length.
Qed.

Lemma emit_preserving_length (tc : bool) (cl : list (cls * codeunit)) :
  forall p, length (emit true tc p cl) = length cl.
Proof.
  induction cl as [|x cl IH]; intros p; simpl; [reflexivity|].
  rewrite length_app, IH. now destruct (removed_here tc p x cl).
Qed.

Lemma strip_string_length (tc : bool) (s : jsstring) :
  length (strip_string true tc s) = length s.
Proof.
  rewrite strip_string_spec, strip_spec_emit, emit_preserving_length.
  apply classified_length.
Qed.

(** X3.  With whitespace preserved the offsets are stable: a character of
    the output that is no whitespace is the character of the input at the
    same position, and a whitespace character of the input (a line feed, so
    the line structure) is in the output at its position. *)
Theorem X3_offsets_stable (tc : bool) (s : jsstring) (i : nat) (c : codeunit) :
  (nth_error (strip_string true tc s) i = Some c ->
   isWhitespace c = false -> nth_error s i = Some c)
  /\ (nth_error s i = Some c ->
      isWhitespace c = true -> nth_error (strip_string true tc s) i = Some c).
Proof.
  split.
  - intros Ho Hw.
    destruct (nth_error s i) as [d|] eqn:Hd.
    + destruct (classified_some s i d Hd) as [k Hk].
      rewrite (output_nth tc s i k d Hk) in Ho.
      destruct (removed_here tc _ (k, d) _).
      * injection Ho as <-. now rewrite blank_whitespace in Hw.
      * exact Ho.
    + apply nth_error_None in Hd.
      assert (i < length (strip_string true tc s))
        by (apply nth_error_Some; congruence).
      rewrite strip_string_length in *. lia.
  - intros Hs Hw.
    destruct (classified_some s i c Hs) as [k Hk].
    rewrite (output_nth tc s i k c Hk). unfold blank. rewrite Hw.
    now destruct (removed_here tc _ (k, c) _).
Qed.

Lemma X3_witness :
  nth_error (js "a/*" ++ [LF; TAB] ++ js "*/b") 3 = Some LF
  /\ nth_error (strip_string true false (js "a/*" ++ [LF; TAB] ++ js "*/b")) 3
     = Some LF
  /\ nth_error (js "a/*" ++ [LF; TAB] ++ js "*/b") 7 = Some 98%N.
Proof.
  split; [reflexivity|]. split.
  - apply (proj2 (X3_offsets_stable false (js "a/*" ++ [LF; TAB] ++ js "*/b")
                    3 LF)); reflexivity.
  - apply (proj1 (X3_offsets_stable false (js "a/*" ++ [LF; TAB] ++ js "*/b")
                    7 98%N)); reflexivity.
Defined.

Lemma emit_subsequence (tc : bool) (cl : list (cls * codeunit)) :
  forall p, subsequence (emit false tc p cl) (map snd cl).
Proof.
  induction cl as [|x cl IH]; intros p; simpl; [constructor|].
  destruct (removed_here tc p x cl); simpl.
  - apply sub_drop, IH.
  - apply sub_keep, IH.
Qed.

(** X4.  With whitespace removed the output is the input with characters left
    out: nothing is added, changed or moved. *)
Theorem X4_only_deletions (tc : bool) (s : jsstring) :
  subsequence (strip_string false tc s) s.
Proof.
  rewrite strip_string_spec, strip_spec_emit.
  pose proof (emit_subsequence tc (classified s) false) as H.
  unfold classified in H at 2.
  now rewrite map_snd_combine in H by apply classify_length.
Qed.

(** ** Texts without comments or commas *)

Lemma occurs_cons (k c : codeunit) (r : jsstring) :
  occurs k (c :: r) = false -> (c =? k)%N = false /\ occurs k r = false.
Proof.
  unfold occurs. cbn [existsb]. intros H. apply orb_false_elim in H.
  destruct H as [H1 H2]. rewrite N.eqb_sym in H1. auto.
Qed.

Lemma emit_plain (ws : bool) (l : jsstring) :
  occurs SLASH l = false ->
  forall m e p,
    m = Normal \/ m = InString ->
    emit ws false p (combine (classify m e l) l) = l.
Proof.
  induction l as [|c r IH]; intros Hs m e p Hm; [reflexivity|].
  destruct (occurs_cons SLASH c r Hs) as [Hc Hr].
  destruct Hm as [-> | ->]; cbn [classify].
  - destruct ((c =? DQ)%N && negb e).
    + simpl. f_equal. apply IH; auto.
    + rewrite Hc.
      assert (E : match r with
                  | c2 :: r2 =>
                      if false && (c2 =? SLASH)%N
                      then Com :: Com :: classify InLineComment false r2
                      else if false && (c2 =? STAR)%N
                           then Com :: Com :: classify InBlockComment false r2
                           else Code :: classify Normal (next_esc e c) r
                  | [] => Code :: classify Normal (next_esc e c) r
                  end = Code :: classify Normal (next_esc e c) r)
        by (destruct r; reflexivity).
      rewrite E. simpl. f_equal. apply IH; auto.
  - destruct ((c =? DQ)%N && negb e); simpl; f_equal; apply IH; auto.
Qed.

(** X5.  A text without a slash has no comment: with trailing commas left
    alone it is returned as it is, in both whitespace modes. *)
Theorem X5_no_slash_unchanged (ws : bool) (s : jsstring) :
  occurs SLASH s = false -> strip_string ws false s = s.
Proof.
  intros H. rewrite strip_string_spec, strip_spec_emit.
  apply emit_plain; auto.
Qed.

Lemma X5_witness :
  strip_string false false
    (js "{" ++ [DQ] ++ js "a" ++ [DQ] ++ js ": [1, 2,]}")
  = js "{" ++ [DQ] ++ js "a" ++ [DQ] ++ js ": [1, 2,]}".
Proof.
  apply (X5_no_slash_unchanged false
           (js "{" ++ [DQ] ++ js "a" ++ [DQ] ++ js ": [1, 2,]}")).
  reflexivity.
Defined.

Lemma emit_no_comma (ws : bool) (l : jsstring) :
  occurs COMMA l = false ->
  forall ks,
    emit ws true false (combine ks l) = emit ws false false (combine ks l).
Proof.
  induction l as [|c r IH]; intros Hs [|k ks]; try reflexivity.
  destruct (occurs_cons COMMA c r Hs) as [Hc Hr].
  simpl. destruct k; simpl; rewrite ?Hc; simpl; now rewrite (IH Hr).
Qed.

(** X6.  On a text without a comma the option to strip trailing commas
    changes nothing. *)
Theorem X6_no_comma_no_effect (ws : bool) (s : jsstring) :
  occurs COMMA s = false -> strip_string ws true s = strip_string ws false s.
Proof.
  intros H. rewrite !strip_string_spec, !strip_spec_emit.
  now apply emit_no_comma.
Qed.

Lemma X6_witness :
  strip_string false true (js "[1 /* one */ ] // end")
  = strip_string false false (js "[1 /* one */ ] // end").
Proof.
  apply (X6_no_comma_no_effect false (js "[1 /* one */ ] // end")).
  reflexivity.
Defined.

(** ** What the option to strip trailing commas changes *)

Lemma removed_here_options (p p' : bool) (k : cls) (c : codeunit)
      (r : list (cls * codeunit)) :
  removed_here true p (k, c) r = removed_here false p' (k, c) r
  \/ (c = COMMA /\ removed_here true p (k, c) r = true
      /\ removed_here false p' (k, c) r = false).
Proof.
  destruct k; simpl; auto.
  destruct (negb p && (c =? COMMA)%N && closes r) eqn:E; auto.
  right. apply andb_prop in E. destruct E as [E _].
  apply andb_prop in E. destruct E as [_ E]. apply N.eqb_eq in E. auto.
Qed.

Lemma emit_options (cl : list (cls * codeunit)) :
  forall p p', subsequence (emit false true p cl) (emit false false p' cl).
Proof.
  induction cl as [|[k c] cl IH]; intros p p'; [constructor|].
  cbn [emit snd].
  destruct (removed_here_options p p' k c cl) as [E | (_ & E1 & E2)].
  - rewrite E. destruct (removed_here false p' (k, c) cl); simpl.
    + apply IH.
    + apply sub_keep, IH.
  - rewrite E1, E2. simpl. apply sub_drop, IH.
Qed.

(** X7.  All the option to strip trailing commas does is remove commas.  With
    whitespace preserved, the two outputs differ only at positions where the
    input has a comma, which has become a space; with whitespace removed, the
    output with the option is the output without it with characters left
    out. *)
Theorem X7_only_commas_go (s : jsstring) :
  (forall i,
      nth_error (strip_string true true s) i
      = nth_error (strip_string true false s) i
      \/ (nth_error s i = Some COMMA
          /\ nth_error (strip_string true true s) i = Some SPACE
          /\ nth_error (strip_string true false s) i = Some COMMA))
  /\ subsequence (strip_string false true s) (strip_string false false s).
Proof.
  split.
  - intros i. destruct (nth_error s i) as [c|] eqn:Hc.
    + destruct (classified_some s i c Hc) as [k Hk].
      rewrite (output_nth true s i k c Hk), (output_nth false s i k c Hk).
      destruct (removed_here_options
                  (pending_before true (classified s) i)
                  (pending_before false (classified s) i) k c
                  (skipn (S i) (classified s))) as [E | (-> & E1 & E2)].
      * left. now rewrite E.
      * right. rewrite E1, E2. auto.
    + left. apply nth_error_None in Hc.
      assert (H1 : nth_error (strip_string true true s) i = None).
      { apply nth_error_None. rewrite strip_string_length. exact Hc. }
      assert (H2 : nth_error (strip_string true false s) i = None).
      { apply nth_error_None. rewrite strip_string_length. exact Hc. }
      congruence.
  - rewrite !strip_string_spec, !strip_spec_emit. apply emit_options.
Qed.

(** ** The helpers on their own *)

(** X8.  [isEscaped] gives the parity of the run of backslashes that ends
    just before the position, so it depends only on the text before the
    position; at a position past the end of the text, where the character
    before is [undefined], it gives [false]. *)
Theorem X8_isEscaped_parity (s : jsstring) (i : nat) :
  isEscaped s i = (i <=? length s) && Nat.odd (backslashes_before s i)
  /\ (forall rest,
         isEscaped (firstn i s ++ rest) (length (firstn i s))
         = Nat.odd (run_length (rev (firstn i s)))).
Proof.
  split.
  - destruct (Nat.leb_spec i (length s)) as [H|H].
    + now rewrite isEscaped_odd.
    + destruct i as [|n]; [lia|].
      unfold isEscaped. simpl.
      assert (E : nth_error s n = None) by (apply nth_error_None; lia).
      rewrite E. reflexivity.
  - intros rest. rewrite isEscaped_odd by (rewrite length_app; lia).
    unfold backslashes_before.
    rewrite firstn_app, Nat.sub_diag, firstn_all. simpl.
    now rewrite app_nil_r.
Qed.

Lemma slice_nth (s : jsstring) (a b k : nat) :
  nth_error (slice s a b) k
  = if a + k <? b then nth_error s (a + k) else None.
Proof.
  unfold slice. rewrite nth_error_firstn, nth_error_skipn.
  destruct (Nat.ltb_spec k (b - a)), (Nat.ltb_spec (a + k) b);
    try reflexivity; lia.
Qed.

(** X9.  [stripWithWhitespace] gives a text of whitespace as long as the part
    of the text between [start] and [end]: nothing when [end] is not after
    [start] or [start] is not before the end of the text, and otherwise, for
    each position of the part, the character there if it is whitespace and a
    space if it is not. *)
Theorem X9_stripWithWhitespace (s : jsstring) (a b : nat) :
  length (stripWithWhitespace s a b) = Nat.min b (length s) - a
  /\ Forall (fun c => isWhitespace c = true) (stripWithWhitespace s a b)
  /\ (forall k,
         nth_error (stripWithWhitespace s a b) k
         = if a + k <? b
           then option_map (fun c => if isWhitespace c then c else SPACE)
                           (nth_error s (a + k))
           else None).
Proof.
  unfold stripWithWhitespace. split; [|split].
  - rewrite length_map. unfold slice.
    rewrite length_firstn, length_skipn. lia.
  - apply Forall_map, Forall_forall. intros c _. apply blank_whitespace.
  - intros k. rewrite nth_error_map, slice_nth.
    destruct (a + k <? b); reflexivity.
Qed.

(** ** The state of the loop *)

Lemma body_result_off (ws : bool) (s : jsstring) (i : nat) (st : state) :
  result (snd (body ws false s i st)) = result st.
Proof.
  unfold body, quote_step. cbn [andb].
  repeat match goal with
         | |- context [if ?b then _ else _] => destruct b
         end; reflexivity.
Qed.

Lemma loop_result_off (ws : bool) (s : jsstring) (n : nat) :
  forall i st, result (snd (loop ws false s n i st)) = result st.
Proof.
  induction n as [|n IH]; intros i st; simpl; [reflexivity|].
  destruct (i <? length s); [|reflexivity].
  pose proof (body_result_off ws s i st) as H.
  destruct (body ws false s i st) as [i' st']. simpl in H.
  now rewrite IH.
Qed.

Lemma loop_Inv (ws tc : bool) (s : jsstring) (n : nat) :
  forall i st,
    Inv ws tc s st i ->
    Inv ws tc s (snd (loop ws tc s n i st)) (fst (loop ws tc s n i st)).
Proof.
  induction n as [|n IH]; intros i st HI; simpl; [exact HI|].
  destruct (i <? length s) eqn:Hlt; [|exact HI].
  apply Nat.ltb_lt in Hlt.
  destruct (body ws tc s i st) as [i' st'] eqn:Hb.
  destruct (step ws tc s st i HI Hlt i' st' Hb) as (_ & HI' & _).
  now apply IH.
Qed.

(** X10.  After any number of iterations of the loop: [offset] is not past
    [index], which is not past the end of the text; the scanner is not inside
    a string and a comment at once; inside a comment, [offset] is where the
    comment begins; with whitespace preserved, [result] and [buffer] together
    are as long as the text before [offset]; and with trailing commas left
    alone, nothing is recorded in [commaIndex] and [result] stays empty. *)
Theorem X10_loop_invariants (ws tc : bool) (s : jsstring) (n : nat) :
  let index := fst (loop ws tc s n 0 initial) in
  let st := snd (loop ws tc s n 0 initial) in
  offset st <= index <= length s
  /\ (isInsideString st && inComment (isInsideComment st) = false)
  /\ (inComment (isInsideComment st) = true ->
      offset st + 2 <= index /\ nth_error s (offset st) = Some SLASH)
  /\ (ws = true -> length (result st) + length (buffer st) = offset st)
  /\ (tc = false -> commaIndex st = (-1)%Z /\ result st = []).
Proof.
  intros index st.
  pose proof (loop_Inv ws tc s n 0 initial (Inv_initial ws tc s)) as HI.
  fold index st in HI. destruct HI as [Ho Hi Hs Hm Hoff Hc Hl].
  split; [lia|]. split; [|split; [|split; [exact Hl|]]].
  - destruct (isInsideString st); [|reflexivity].
    now rewrite (Hs eq_refl).
  - intros H. destruct (Hm H) as (H1 & H2 & _). auto.
  - intros ->. split; [now apply Hoff|].
    unfold st. now rewrite loop_result_off.
Qed.

Lemma X10_witness :
  let st := snd (loop true false (js "ab /* c") 5 0 initial) in
  offset st = 3 /\ nth_error (js "ab /* c") (offset st) = Some SLASH
  /\ length (result st) + length (buffer st) = 3
  /\ result st = [].
Proof.
  pose proof (X10_loop_invariants true false (js "ab /* c") 5)
    as (_ & _ & H3 & H4 & H5).
  cbv zeta. split; [reflexivity|]. split; [|split].
  - apply (H3 eq_refl).
  - apply (H4 eq_refl).
  - apply (H5 eq_refl).
Defined.

(** ** The mode in which the loop is *)

Lemma comma_step_comment (ws : bool) (s : jsstring) (i : nat) (st : state) :
  isInsideComment (comma_step ws s i st) = isInsideComment st.
Proof.
  unfold comma_step.
  repeat match goal with
         | |- context [if ?b then _ else _] => destruct b
         end; reflexivity.
Qed.

Section Modes.

Variables (ws tc : bool) (s : jsstring).

Ltac eqb_subst :=
  repeat match goal with
         | H : (_ =? _)%N = true |- _ => apply N.eqb_eq in H; subst
         end.

Lemma body_ending st i c r :
  (isInsideString st = true -> isInsideComment st = NoComment) ->
  skipn i s = c :: r ->
  forall i' st',
    body ws tc s i st = (i', st') -> ending s st' (S i') = ending s st i.
Proof.
  intros Hs Hsk i' st'.
  pose proof (at_nth s i c r Hsk) as Hn.
  pose proof (at_next_nth s i c r Hsk) as Hn1.
  pose proof (at_next s i c r Hsk) as Hnx.
  pose proof (isEscaped_S s i c Hn) as Hesc.
  assert (H2 : forall c2 r2, r = c2 :: r2 ->
                 skipn (S (S i)) s = r2
                 /\ isEscaped s (S (S i)) = next_esc (isEscaped s (S i)) c2).
  { intros c2 r2 E. split.
    - apply (at_next2 s i c r Hsk c2 r2 E).
    - apply isEscaped_S. rewrite E in Hnx. apply (at_nth s (S i) c2 r2 Hnx). }
  unfold ending at 2. unfold mode_of, esc_at. rewrite Hsk.
  unfold body, quote_step. rewrite Hn, Hn1. unfold pair_is.
  replace (i + 1) with (S i) by lia.
  destruct st as [str com o b res ci].
  cbn [isInsideString isInsideComment offset buffer result commaIndex] in *.
  destruct str; [rewrite (Hs eq_refl)|destruct com];
    cbn [scan_end inComment];
    (destruct r as [|c2 r2];
     [|destruct (H2 c2 r2 eq_refl) as [Hnx2 Hesc2]]);
    repeat (cbn [isInsideString isInsideComment offset buffer result
                 commaIndex inComment isSingle isMulti negb andb orb
                 fst snd hd_error char_is];
            match goal with
            | |- context [(?x =? ?k)%N] => destruct (x =? k)%N eqn:?
            | |- context [isEscaped s i] => destruct (isEscaped s i) eqn:?
            | |- context [tc && _] => destruct tc
            end);
    intros Hb; injection Hb as <- <-;
    unfold ending, mode_of, esc_at;
    rewrite ?comma_step_string, ?comma_step_comment;
    cbn [isInsideString isInsideComment inComment];
    rewrite ?Hnx2, ?Hnx, ?Hesc2, ?Hesc;
    repeat match goal with
           | H : isEscaped s i = _ |- _ => rewrite H
           end;
    eqb_subst; try reflexivity;
    try (exfalso;
         match goal with
         | H : _ = _ |- _ => discriminate H
         end).
Qed.

Lemma loop_ending (n : nat) :
  forall i st,
    Inv ws tc s st i ->
    ending s (snd (loop ws tc s n i st)) (fst (loop ws tc s n i st))
    = ending s st i.
Proof.
  induction n as [|n IH]; intros i st HI; simpl; [reflexivity|].
  destruct (i <? length s) eqn:Hlt; [|reflexivity].
  apply Nat.ltb_lt in Hlt.
  destruct (body ws tc s i st) as [i' st'] eqn:Hb.
  destruct (step ws tc s st i HI Hlt i' st' Hb) as (_ & HI' & _).
  rewrite (IH (S i') st' HI').
  destruct (skipn i s) as [|c r] eqn:Hsk.
  - apply (f_equal (@length codeunit)) in Hsk.
    rewrite length_skipn in Hsk. simpl in Hsk. lia.
  - apply (body_ending st i c r (inv_string ws tc s st i HI) Hsk i' st' Hb).
Qed.

(** The loop ends in the mode, and with the escape parity, in which the
    scanner of the specification ends. *)
Lemma final_ending :
  scan_end Normal false s
  = (mode_of (final_state ws tc s),
     esc_at s (final_state ws tc s) (length s)).
Proof.
  pose proof (loop_ending (length s) 0 initial (Inv_initial ws tc s)) as H.
  destruct (loop_spec ws tc s (length s) 0 initial (Inv_initial ws tc s)
              ltac:(lia)) as (Hi & _ & _).
  rewrite Hi in H. unfold ending in H. rewrite skipn_all in H.
  unfold final_state. cbn [scan_end] in H.
  change (skipn 0 s) with s in H.
  change (mode_of initial) with Normal in H.
  change (esc_at s initial 0) with false in H.
  now rewrite <- H.
Qed.

Lemma final_mode : mode_of (final_state ws tc s) = fst (scan_end Normal false s).
Proof. now rewrite final_ending. Qed.

End Modes.

(** ** How the outputs of the parts of a text compose *)

(** With trailing commas left alone the output is made character by
    character. *)
Lemma emit_off (ws : bool) (cl : list (cls * codeunit)) :
  forall p,
    emit ws false p cl
    = flat_map (fun x : cls * codeunit =>
                  match fst x with
                  | Com => erase ws (snd x)
                  | _ => [snd x]
                  end) cl.
Proof.
  induction cl as [|[k c] cl IH]; intros p; simpl; [reflexivity|].
  rewrite IH. destruct k; reflexivity.
Qed.

Lemma emit_off_app (ws : bool) (cl1 cl2 : list (cls * codeunit)) (p : bool) :
  emit ws false p (cl1 ++ cl2) = emit ws false p cl1 ++ emit ws false p cl2.
Proof. rewrite !emit_off. apply flat_map_app. Qed.

Lemma emit_off_comment (ws : bool) (l : jsstring) (p : bool) :
  emit ws false p (combine (repeat Com (length l)) l) = strip_all ws l.
Proof.
  rewrite emit_off, strip_all_eq.
  induction l as [|c l IH]; simpl.
  - now destruct ws.
  - rewrite IH. unfold erase. now destruct ws.
Qed.

(** The scanner reads a text that is followed by a line feed as it reads the
    text alone. *)
Lemma classify_before_lf (rest : jsstring) (pre : jsstring) :
  forall m e,
    classify m e (pre ++ LF :: rest)
    = classify m e pre
      ++ classify (fst (scan_end m e pre)) (snd (scan_end m e pre))
                  (LF :: rest).
Proof.
  induction pre as [|c r IH1 IH2] using scan_ind; intros m e;
    [reflexivity|].
  destruct m.
  - cbn [classify scan_end app].
    destruct ((c =? DQ)%N && negb e); [now rewrite IH1|].
    destruct r as [|c2 r2].
    + cbn [app classify scan_end fst snd]. rewrite !andb_false_r.
      reflexivity.
    + cbn [app].
      destruct ((c =? SLASH)%N && (c2 =? SLASH)%N);
        [now rewrite (IH2 c2 r2 eq_refl)|].
      destruct ((c =? SLASH)%N && (c2 =? STAR)%N);
        [now rewrite (IH2 c2 r2 eq_refl)|].
      change (c2 :: r2 ++ LF :: rest) with ((c2 :: r2) ++ LF :: rest).
      now rewrite IH1.
  - cbn [classify scan_end app].
    destruct ((c =? DQ)%N && negb e); now rewrite IH1.
  - cbn [classify scan_end app].
    destruct r as [|c2 r2].
    + cbn [app classify scan_end fst snd].
      destruct (c =? LF)%N eqn:E1.
      * replace ((c =? CR)%N) with false; [reflexivity|].
        apply N.eqb_eq in E1. now subst c.
      * destruct (c =? CR)%N eqn:E2; cbn [andb].
        -- change ((LF =? LF)%N) with true. cbv iota.
           change ((LF =? CR)%N) with false. cbn [andb app].
           destruct rest; reflexivity.
        -- reflexivity.
    + cbn [app].
      destruct ((c =? CR)%N && (c2 =? LF)%N);
        [now rewrite (IH2 c2 r2 eq_refl)|].
      change (c2 :: r2 ++ LF :: rest) with ((c2 :: r2) ++ LF :: rest).
      destruct (c =? LF)%N; now rewrite IH1.
  - cbn [classify scan_end app].
    destruct r as [|c2 r2].
    + cbn [app classify scan_end fst snd]. rewrite !andb_false_r.
      reflexivity.
    + cbn [app].
      destruct ((c =? STAR)%N && (c2 =? SLASH)%N);
        [now rewrite (IH2 c2 r2 eq_refl)|].
      change (c2 :: r2 ++ LF :: rest) with ((c2 :: r2) ++ LF :: rest).
      now rewrite IH1.
Qed.

Lemma classify_lf (m : mode) (e : bool) (rest : jsstring) :
  m = Normal \/ m = InLineComment ->
  classify m e (LF :: rest) = Code :: classify Normal false rest.
Proof.
  intros [-> | ->].
  - now rewrite classify_normal_blank.
  - destruct rest; reflexivity.
Qed.

(** X11.  A text can be stripped line by line.  With trailing commas left
    alone, if the scanner is neither inside a string nor inside a block
    comment at the end of a text, the output for the text, a line feed and a
    second text is the output for the first text, the line feed and the output
    for the second: a line comment that is open at the end of the first text
    is replaced in the same way whether the text ends there or the line
    does. *)
Theorem X11_line_by_line (ws : bool) (s1 s2 : jsstring) :
  isInsideString (final_state ws false s1) = false ->
  isMulti (isInsideComment (final_state ws false s1)) = false ->
  strip_string ws false (s1 ++ LF :: s2)
  = strip_string ws false s1 ++ LF :: strip_string ws false s2.
Proof.
  intros Hstr Hcom.
  assert (Hm : fst (scan_end Normal false s1) = Normal
               \/ fst (scan_end Normal false s1) = InLineComment).
  { rewrite <- (final_mode ws false s1). unfold mode_of. rewrite Hstr.
    destruct (isInsideComment (final_state ws false s1));
      [now left|now right|discriminate]. }
  rewrite !strip_string_spec, !strip_spec_emit. unfold classified.
  rewrite classify_before_lf, (classify_lf _ _ s2 Hm).
  rewrite combine_app by apply classify_length.
  rewrite emit_off_app. cbn [combine]. reflexivity.
Qed.

Lemma X11_witness :
  strip_string false false (js "[1, // one" ++ LF :: js "2] /* two */")
  = strip_string false false (js "[1, // one")
    ++ LF :: strip_string false false (js "2] /* two */").
Proof.
  apply (X11_line_by_line false (js "[1, // one") (js "2] /* two */"));
    reflexivity.
Defined.

(** The scanner reads a text that does not end in a slash, and that it does
    not leave inside a block comment, as it reads the text alone when a slash
    follows. *)
Lemma classify_before_slash (rest : jsstring) (pre : jsstring) :
  forall m e,
    ends_slash pre = false ->
    fst (scan_end m e pre) <> InBlockComment ->
    classify m e (pre ++ SLASH :: rest)
    = classify m e pre
      ++ classify (fst (scan_end m e pre)) (snd (scan_end m e pre))
                  (SLASH :: rest).
Proof.
  induction pre as [|c r IH1 IH2] using scan_ind; intros m e Hs;
    [reflexivity|].
  assert (Hs1 : ends_slash r = false)
    by (destruct r; [reflexivity|exact Hs]).
  assert (Hs2 : forall c2 r2, r = c2 :: r2 -> ends_slash r2 = false).
  { intros c2 r2 ->. destruct r2; [reflexivity|exact Hs]. }
  destruct m; cbn [classify scan_end app].
  - destruct ((c =? DQ)%N && negb e).
    { intros Hb. now rewrite IH1. }
    destruct r as [|c2 r2].
    + intros _. cbn [app classify scan_end fst snd]. simpl in Hs.
      rewrite Hs. reflexivity.
    + cbn [app].
      destruct ((c =? SLASH)%N && (c2 =? SLASH)%N);
        [intros Hb; rewrite (IH2 c2 r2 eq_refl); eauto|].
      destruct ((c =? SLASH)%N && (c2 =? STAR)%N);
        [intros Hb; rewrite (IH2 c2 r2 eq_refl); eauto|].
      change (c2 :: r2 ++ SLASH :: rest) with ((c2 :: r2) ++ SLASH :: rest).
      intros Hb. now rewrite IH1.
  - destruct ((c =? DQ)%N && negb e); intros Hb; now rewrite IH1.
  - destruct r as [|c2 r2].
    + intros _. cbn [app classify scan_end fst snd]. rewrite !andb_false_r.
      destruct (c =? LF)%N; reflexivity.
    + cbn [app].
      destruct ((c =? CR)%N && (c2 =? LF)%N);
        [intros Hb; rewrite (IH2 c2 r2 eq_refl); eauto|].
      change (c2 :: r2 ++ SLASH :: rest) with ((c2 :: r2) ++ SLASH :: rest).
      destruct (c =? LF)%N; intros Hb; now rewrite IH1.
  - destruct r as [|c2 r2].
    + cbn [scan_end fst]. congruence.
    + cbn [app].
      destruct ((c =? STAR)%N && (c2 =? SLASH)%N);
        [intros Hb; rewrite (IH2 c2 r2 eq_refl); eauto|].
      change (c2 :: r2 ++ SLASH :: rest) with ((c2 :: r2) ++ SLASH :: rest).
      intros Hb. now rewrite IH1.
Qed.

Lemma classify_block (post : jsstring) (body : jsstring) :
  has_close body = false ->
  classify InBlockComment false (body ++ STAR :: SLASH :: post)
  = repeat Com (length body + 2) ++ classify Normal false post.
Proof.
  induction body as [|c r IH]; intros H; [reflexivity|].
  cbn [app classify length Nat.add repeat].
  destruct r as [|c2 r2].
  - cbn [app]. change ((STAR =? SLASH)%N) with false.
    rewrite andb_false_r. f_equal; try apply (IH eq_refl).
  - cbn [has_close] in H. apply orb_false_elim in H. destruct H as [H1 H2].
    cbn [app]. rewrite H1. f_equal; try apply (IH H2).
Qed.

(** X12.  A block comment is taken out and the texts around it are treated
    as if each stood alone.  With trailing commas left alone, if the scanner
    is outside strings and comments at the end of a text that does not end in
    a slash, then for that text, a block comment (whose content does not hold
    the closing marker) and a second text, the output is the output for the
    first text, what the whitespace policy makes of the whole comment, and
    the output for the second text. *)
Theorem X12_block_comment_removed (ws : bool) (pre body post : jsstring) :
  isInsideString (final_state ws false pre) = false ->
  isInsideComment (final_state ws false pre) = NoComment ->
  ends_slash pre = false ->
  has_close body = false ->
  strip_string ws false
    (pre ++ (SLASH :: STAR :: body ++ [STAR; SLASH]) ++ post)
  = strip_string ws false pre
    ++ strip_all ws (SLASH :: STAR :: body ++ [STAR; SLASH])
    ++ strip_string ws false post.
Proof.
  intros Hstr Hcom Hs Hb.
  assert (Hm : fst (scan_end Normal false pre) = Normal).
  { rewrite <- (final_mode ws false pre). unfold mode_of.
    now rewrite Hstr, Hcom. }
  rewrite !strip_string_spec, !strip_spec_emit. unfold classified.
  replace (pre ++ (SLASH :: STAR :: body ++ [STAR; SLASH]) ++ post)
    with (pre ++ SLASH :: (STAR :: body ++ STAR :: SLASH :: post))
    by (simpl; now rewrite <- !app_assoc).
  rewrite classify_before_slash by (assumption || (rewrite Hm; discriminate)).
  rewrite Hm. cbn [classify].
  change ((SLASH =? DQ)%N) with false. cbn [andb].
  change ((SLASH =? SLASH)%N) with true.
  change ((STAR =? SLASH)%N) with false.
  change ((STAR =? STAR)%N) with true. cbn [andb].
  rewrite (classify_block post body Hb).
  rewrite combine_app by apply classify_length.
  rewrite emit_off_app. f_equal.
  change (Com :: Com :: repeat Com (length body + 2)
          ++ classify Normal false post)
    with (repeat Com (2 + (length body + 2)) ++ classify Normal false post).
  replace (SLASH :: STAR :: body ++ STAR :: SLASH :: post)
    with ((SLASH :: STAR :: body ++ [STAR; SLASH]) ++ post)
    by (simpl; now rewrite <- !app_assoc).
  assert (Hl : 2 + (length body + 2)
               = length (SLASH :: STAR :: body ++ [STAR; SLASH]))
    by (simpl; rewrite length_app; simpl; lia).
  rewrite Hl, combine_app by apply repeat_length.
  rewrite emit_off_app, emit_off_comment. reflexivity.
Qed.

Lemma X12_witness :
  strip_string true false
    (js "[1, " ++ (SLASH :: STAR :: js " two * / " ++ [STAR; SLASH])
     ++ js " 3]")
  = js "[1, " ++ repeat SPACE 13 ++ js " 3]".
Proof.
  rewrite (X12_block_comment_removed true (js "[1, ") (js " two * / ")
             (js " 3]") eq_refl eq_refl eq_refl eq_refl).
  reflexivity.
Defined.

Lemma classify_line (post : jsstring) (body : jsstring) :
  occurs LF body = false ->
  classify InLineComment false (body ++ LF :: post)
  = repeat Com (length body) ++ Code :: classify Normal false post.
Proof.
  induction body as [|c r IH]; intros H.
  - destruct post; reflexivity.
  - destruct (occurs_cons LF c r H) as [Hc Hr].
    cbn [app classify length repeat]. rewrite Hc.
    destruct r as [|c2 r2].
    + cbn [app]. change ((LF =? LF)%N) with true. rewrite andb_true_r.
      destruct (c =? CR)%N.
      * reflexivity.
      * f_equal. apply (IH eq_refl).
    + destruct (occurs_cons LF c2 r2 Hr) as [Hc2 _].
      cbn [app]. rewrite Hc2, andb_false_r. f_equal. apply (IH Hr).
Qed.

(** X13.  A line comment is taken out up to the line feed and the texts
    around it are treated as if each stood alone.  With trailing commas left
    alone, if the scanner is outside strings and comments at the end of a
    text that does not end in a slash, then for that text, two slashes, a
    text without a line feed, a line feed and a second text, the output is
    the output for the first text, what the whitespace policy makes of the
    comment (a carriage return at its end included), the line feed and the
    output for the second text. *)
Theorem X13_line_comment_removed (ws : bool) (pre body post : jsstring) :
  isInsideString (final_state ws false pre) = false ->
  isInsideComment (final_state ws false pre) = NoComment ->
  ends_slash pre = false ->
  occurs LF body = false ->
  strip_string ws false (pre ++ (SLASH :: SLASH :: body) ++ LF :: post)
  = strip_string ws false pre
    ++ strip_all ws (SLASH :: SLASH :: body)
    ++ LF :: strip_string ws false post.
Proof.
  intros Hstr Hcom Hs Hb.
  assert (Hm : fst (scan_end Normal false pre) = Normal).
  { rewrite <- (final_mode ws false pre). unfold mode_of.
    now rewrite Hstr, Hcom. }
  rewrite !strip_string_spec, !strip_spec_emit. unfold classified.
  change (pre ++ (SLASH :: SLASH :: body) ++ LF :: post)
    with (pre ++ SLASH :: (SLASH :: body ++ LF :: post)).
  rewrite classify_before_slash by (assumption || (rewrite Hm; discriminate)).
  rewrite Hm. cbn [classify].
  change ((SLASH =? DQ)%N) with false. cbn [andb].
  change ((SLASH =? SLASH)%N) with true. cbn [andb].
  rewrite (classify_line post body Hb).
  rewrite combine_app by apply classify_length.
  rewrite emit_off_app. f_equal.
  change (Com :: Com :: repeat Com (length body)
          ++ Code :: classify Normal false post)
    with (repeat Com (length (SLASH :: SLASH :: body))
          ++ Code :: classify Normal false post).
  change (SLASH :: SLASH :: body ++ LF :: post)
    with ((SLASH :: SLASH :: body) ++ LF :: post).
  rewrite combine_app by apply repeat_length.
  rewrite emit_off_app, emit_off_comment. reflexivity.
Qed.

Lemma X13_witness :
  strip_string true false
    (js "{} " ++ (SLASH :: SLASH :: js " note" ++ [CR]) ++ LF :: js "[]")
  = js "{} " ++ repeat SPACE 7 ++ CR :: LF :: js "[]".
Proof.
  rewrite (X13_line_comment_removed true (js "{} ") (js " note" ++ [CR])
             (js "[]") eq_refl eq_refl eq_refl eq_refl).
  reflexivity.
Defined.

(** ** After the default pass *)

(** A second pass over the output of the first finds no character to
    remove. *)
Lemma wipe_clean (l : jsstring) :
  forall m e p,
    emit false false p
         (combine (classify (calm m) (calm_esc m e) (wipe (classify m e l) l))
                  (wipe (classify m e l) l))
    = wipe (classify m e l) l.
Proof.
  induction l as [|c r IH1 IH2] using scan_ind; intros m e p;
    [destruct m; reflexivity|].
  destruct m; cbn [calm calm_esc].
  - (* normal mode *)
    cbn [classify].
    destruct ((c =? DQ)%N && negb e) eqn:Hq.
    { cbn [wipe classify]. rewrite Hq. cbn [wipe combine emit]. simpl.
      f_equal. apply (IH1 InString false). }
    destruct r as [|c2 r2].
    { cbn [wipe classify]. rewrite Hq. reflexivity. }
    destruct ((c =? SLASH)%N && (c2 =? SLASH)%N) eqn:T1;
      [|destruct ((c =? SLASH)%N && (c2 =? STAR)%N) eqn:T2].
    + cbn [wipe].
      rewrite !classify_normal_blank by apply blank_whitespace.
      simpl. do 2 f_equal. apply (IH2 c2 r2 eq_refl InLineComment false).
    + cbn [wipe].
      rewrite !classify_normal_blank by apply blank_whitespace.
      simpl. do 2 f_equal. apply (IH2 c2 r2 eq_refl InBlockComment false).
    + cbn [wipe].
      destruct (wipe_head Normal (next_esc e c) c2 r2)
        as (c' & t & Ht & Hc').
      specialize (IH1 Normal (next_esc e c)). cbn [calm calm_esc] in IH1.
      rewrite Ht in IH1 |- *.
      cbn [classify]. rewrite Hq.
      assert (N1 : (c =? SLASH)%N && (c' =? SLASH)%N = false).
      { destruct Hc' as [->|W]; [exact T1|].
        destruct (whitespace_inert c' W) as (_ & -> & _).
        apply andb_false_r. }
      assert (N2 : (c =? SLASH)%N && (c' =? STAR)%N = false).
      { destruct Hc' as [->|W]; [exact T2|].
        destruct (whitespace_inert c' W) as (_ & _ & -> & _).
        apply andb_false_r. }
      rewrite N1, N2. cbn [combine emit removed_here pend_step snd].
      simpl app. f_equal. apply IH1.
  - (* inside a string *)
    cbn [classify].
    destruct ((c =? DQ)%N && negb e) eqn:Hq.
    + cbn [wipe classify]. rewrite Hq. simpl. f_equal.
      apply (IH1 Normal false).
    + cbn [wipe classify]. rewrite Hq. simpl. f_equal.
      apply (IH1 InString (next_esc e c)).
  - (* inside a line comment *)
    assert (Hlf : isWhitespace LF = true) by reflexivity.
    assert (Hcr : isWhitespace CR = true) by reflexivity.
    cbn [classify].
    destruct r as [|c2 r2].
    { destruct (c =? LF)%N eqn:E.
      - apply N.eqb_eq in E. subst c. reflexivity.
      - cbn [wipe]. rewrite classify_normal_blank by apply blank_whitespace.
        reflexivity. }
    destruct ((c =? CR)%N && (c2 =? LF)%N) eqn:T.
    + apply andb_prop in T. destruct T as [E1 E2].
      apply N.eqb_eq in E1, E2. subst c c2.
      cbn [wipe].
      rewrite classify_normal_blank by apply blank_whitespace.
      rewrite classify_normal_blank by exact Hlf.
      simpl. do 2 f_equal. apply (IH2 LF r2 eq_refl Normal false).
    + destruct (c =? LF)%N eqn:E.
      * apply N.eqb_eq in E. subst c. cbn [wipe].
        rewrite classify_normal_blank by exact Hlf.
        simpl. f_equal. apply (IH1 Normal false).
      * cbn [wipe].
        rewrite classify_normal_blank by apply blank_whitespace.
        simpl. f_equal. apply (IH1 InLineComment false).
  - (* inside a block comment *)
    cbn [classify].
    destruct r as [|c2 r2].
    { cbn [wipe]. rewrite classify_normal_blank by apply blank_whitespace.
      reflexivity. }
    destruct ((c =? STAR)%N && (c2 =? SLASH)%N) eqn:T.
    + cbn [wipe].
      rewrite !classify_normal_blank by apply blank_whitespace.
      simpl. do 2 f_equal. apply (IH2 c2 r2 eq_refl Normal false).
    + cbn [wipe].
      rewrite classify_normal_blank by apply blank_whitespace.
      simpl. f_equal. apply (IH1 InBlockComment false).
Qed.

(** X14.  No comment is left after a pass with the default options: a pass
    that removes whitespace and leaves trailing commas alone finds nothing to
    remove in the output. *)
Theorem X14_no_comment_left (s : jsstring) :
  strip_string false false (strip_string true false s)
  = strip_string true false s.
Proof.
  rewrite (strip_string_spec false false), strip_spec_emit.
  rewrite (strip_string_wipe s). unfold classified.
  apply (wipe_clean s Normal false false).
Qed.

(** ** A string that is not closed *)

Lemma classify_open (body : jsstring) :
  forall e,
    open_payload e body = true ->
    classify InString e body = repeat Str (length body).
Proof.
  induction body as [|c r IH]; intros e H; simpl in H |- *; [reflexivity|].
  destruct ((c =? DQ)%N && negb e); [discriminate|].
  now rewrite (IH _ H).
Qed.

(** X15.  A string that is never closed is kept to the end of the text.  If
    the scanner is outside strings and comments at the end of a text that
    ends in an even number of backslashes, then for that text, a quote and a
    text without an unescaped quote, the output ends with the quote and that
    text as they are, whatever comment markers, commas or brackets the text
    holds and whatever the options; with whitespace preserved the quote is at
    its place. *)
Theorem X15_unterminated_string (ws tc : bool) (pre body : jsstring) :
  isInsideString (final_state ws tc pre) = false ->
  isInsideComment (final_state ws tc pre) = NoComment ->
  isEscaped pre (length pre) = false ->
  open_payload false body = true ->
  exists A,
    strip_string ws tc (pre ++ DQ :: body) = A ++ DQ :: body
    /\ (ws = true -> length A = length pre).
Proof.
  intros Hstr Hcom Hesc Hbody.
  assert (Hend : scan_end Normal false pre = (Normal, false)).
  { rewrite (final_ending ws tc pre). unfold mode_of, esc_at.
    now rewrite Hstr, Hcom, Hesc. }
  rewrite strip_string_spec, strip_spec_emit. unfold classified.
  rewrite classify_before_quote, Hend. cbn [fst snd].
  rewrite combine_app by apply classify_length.
  cbn [classify andb negb N.eqb DQ Pos.eqb].
  rewrite (classify_open body false Hbody).
  cbn [combine].
  destruct (emit_app ws tc (combine (classify Normal false pre) pre)
              ((Str, DQ) :: combine (repeat Str (length body)) body)
              false)
    as (A & HA & HL).
  rewrite HA. exists A. split.
  - f_equal. cbn [emit removed_here pend_step snd app]. f_equal.
    rewrite <- (app_nil_r (combine (repeat Str (length body)) body)).
    rewrite emit_string. apply app_nil_r.
  - intros W. rewrite (HL W), length_combine, classify_length. lia.
Qed.

Lemma X15_witness :
  exists A,
    strip_string false true (js "[1, " ++ DQ :: js "a // b, ]")
    = A ++ DQ :: js "a // b, ]".
Proof.
  destruct (X15_unterminated_string false true (js "[1, ") (js "a // b, ]")
              eq_refl eq_refl eq_refl eq_refl) as (A & H & _).
  exists A. exact H.
Defined.

(** * A text that ends inside a comment *)

(** ** The positions at which the scanner stands *)

Ltac scan_tests :=
  repeat match goal with
         | |- context [if ?b then _ else _] => destruct b eqn:?
         end.

Lemma scan_at_skipn (l : jsstring) :
  forall n m e m' e',
    scan_at m e l n = Some (m', e') ->
    skipn n (classify m e l) = classify m' e' (skipn n l).
Proof.
  induction l as [|c r IH1 IH2] using scan_ind; intros n m e m' e' H.
  - destruct n; simpl in H; [|discriminate].
    injection H as <- <-. reflexivity.
  - destruct n as [|n]; [simpl in H; injection H as <- <-; reflexivity|].
    revert H. destruct m; cbn [scan_at classify skipn];
      destruct r as [|c2 r2]; cbv beta iota; scan_tests;
      try (apply IH1);
      try (destruct n as [|n]; [discriminate|]; cbn [skipn];
           apply (IH2 _ _ eq_refl)).
Qed.

Lemma scan_at_firstn (l : jsstring) :
  forall n m e m' e',
    scan_at m e l n = Some (m', e') ->
    classify m e (firstn n l) = firstn n (classify m e l)
    /\ scan_end m e (firstn n l) = (m', e').
Proof.
  induction l as [|c r IH1 IH2] using scan_ind; intros n m e m' e' H.
  - destruct n; simpl in H; [|discriminate].
    injection H as <- <-. split; reflexivity.
  - destruct n as [|n]; [simpl in H; injection H as <- <-; split; reflexivity|].
    revert H. destruct m; cbn [scan_at classify scan_end firstn];
      destruct r as [|c2 r2];
      (destruct n as [|n];
       [cbn [scan_at firstn classify scan_end]|cbn [firstn]]);
      cbv beta iota; scan_tests; intros H;
      first
        [ discriminate H
        | injection H as <- <-; split; reflexivity
        | change (c2 :: firstn n r2) with (firstn (S n) (c2 :: r2));
          destruct (IH1 _ _ _ _ _ H) as [A B]; rewrite A, B;
          split; reflexivity
        | destruct (IH2 _ _ eq_refl _ _ _ _ _ H) as [A B]; rewrite A, B;
          split; reflexivity
        ].
Qed.

Lemma scan_at_add (l : jsstring) :
  forall n m e m1 e1 d,
    scan_at m e l n = Some (m1, e1) ->
    scan_at m e l (n + d) = scan_at m1 e1 (skipn n l) d.
Proof.
  induction l as [|c r IH1 IH2] using scan_ind; intros n m e m1 e1 d H.
  - destruct n; simpl in H; [|discriminate].
    injection H as <- <-. reflexivity.
  - destruct n as [|n]; [simpl in H; injection H as <- <-; reflexivity|].
    revert H. cbn [Nat.add skipn]. destruct m; cbn [scan_at];
      destruct r as [|c2 r2]; cbv beta iota; scan_tests; intros H;
      first
        [ apply (IH1 _ _ _ _ _ d H)
        | destruct n as [|n]; [discriminate H|]; cbn [Nat.add skipn];
          apply (IH2 _ _ eq_refl _ _ _ _ _ d H) ].
Qed.

Lemma all_comment (l : list cls) :
  (forall j, j < length l -> nth_error l j = Some Com) ->
  l = repeat Com (length l).
Proof.
  induction l as [|k l IH]; intros H; [reflexivity|].
  simpl. f_equal.
  - specialize (H 0 ltac:(simpl; lia)). simpl in H. congruence.
  - apply IH. intros j Hj. apply (H (S j)). simpl. lia.
Qed.

(** ** The loop stands where the scanner stands *)

Section Track.

Variables (ws tc : bool) (s : jsstring).

Ltac eqb_subst :=
  repeat match goal with
         | H : (_ =? _)%N = true |- _ => apply N.eqb_eq in H; subst
         end.

Lemma body_track st i c r :
  (isInsideString st = true -> isInsideComment st = NoComment) ->
  skipn i s = c :: r ->
  forall i' st',
    body ws tc s i st = (i', st') ->
    (i' = i
     /\ scan_at (mode_of st) (esc_at s st i) (c :: r) 1
        = Some (mode_of st', esc_at s st' (S i))
     /\ (inComment (isInsideComment st') = true ->
         inComment (isInsideComment st) = true
         /\ offset st' = offset st
         /\ hd_error (classify (mode_of st) (esc_at s st i) (c :: r))
            = Some Com))
    \/ (i' = S i
        /\ scan_at (mode_of st) (esc_at s st i) (c :: r) 2
           = Some (mode_of st', esc_at s st' (S (S i)))
        /\ (inComment (isInsideComment st') = true ->
            mode_of st = Normal
            /\ offset st' = i
            /\ firstn 2 (classify (mode_of st) (esc_at s st i) (c :: r))
               = [Com; Com])).
Proof.
  intros Hs Hsk i' st'.
  pose proof (at_nth s i c r Hsk) as Hn.
  pose proof (at_next_nth s i c r Hsk) as Hn1.
  pose proof (at_next s i c r Hsk) as Hnx.
  pose proof (isEscaped_S s i c Hn) as Hesc.
  assert (H2 : forall c2 r2, r = c2 :: r2 ->
                 isEscaped s (S (S i)) = next_esc (isEscaped s (S i)) c2).
  { intros c2 r2 E.
    apply isEscaped_S. rewrite E in Hnx. apply (at_nth s (S i) c2 r2 Hnx). }
  unfold body, quote_step. rewrite Hn, Hn1. unfold pair_is.
  replace (i + 1) with (S i) by lia.
  destruct st as [str com o b res ci].
  unfold mode_of, esc_at.
  cbn [isInsideString isInsideComment offset buffer result commaIndex] in *.
  destruct str; [rewrite (Hs eq_refl)|destruct com];
    cbn [scan_at classify inComment hd_error firstn];
    (destruct r as [|c2 r2];
     [|pose proof (H2 c2 r2 eq_refl) as Hesc2]);
    repeat (cbn [isInsideString isInsideComment offset buffer result
                 commaIndex inComment isSingle isMulti negb andb orb
                 fst snd hd_error char_is firstn];
            match goal with
            | |- context [(?x =? ?k)%N] => destruct (x =? k)%N eqn:?
            | |- context [isEscaped s i] => destruct (isEscaped s i) eqn:?
            | |- context [tc && _] => destruct tc
            end);
    intros Hb; injection Hb as <- <-;
    rewrite ?comma_step_string, ?comma_step_comment;
    cbn [isInsideString isInsideComment inComment offset];
    rewrite ?Hesc2, ?Hesc;
    repeat match goal with
           | H : isEscaped s i = _ |- _ => rewrite H
           end;
    eqb_subst;
    first
      [ left; split; [reflexivity|]; split; [reflexivity|];
        intros Hq;
        first [discriminate Hq | split; [reflexivity|split; reflexivity]]
      | right; split; [reflexivity|]; split; [reflexivity|];
        intros Hq;
        first [discriminate Hq | split; [reflexivity|split; reflexivity]]
      | exfalso;
        match goal with
        | H : _ = _ |- _ => discriminate H
        end
      ].
Qed.

Lemma on_track_initial : on_track s initial 0.
Proof.
  split; [reflexivity|]. intros H. discriminate H.
Qed.

Lemma step_track st i :
  Inv ws tc s st i -> i < length s -> on_track s st i ->
  forall i' st', body ws tc s i st = (i', st') -> on_track s st' (S i').
Proof.
  intros HI Hlt [T1 T2] i' st' Hb.
  destruct (skipn i s) as [|c r] eqn:Hsk.
  { apply (f_equal (@length codeunit)) in Hsk.
    rewrite length_skipn in Hsk. simpl in Hsk. lia. }
  pose proof (scan_at_skipn s i _ _ _ _ T1) as Hcl. rewrite Hsk in Hcl.
  assert (Hadd : forall d,
             scan_at Normal false s (i + d)
             = scan_at (mode_of st) (esc_at s st i) (c :: r) d).
  { intros d. rewrite (scan_at_add s i _ _ _ _ d T1), Hsk. reflexivity. }
  assert (Hnth : forall k,
             nth_error (classify Normal false s) (i + k)
             = nth_error (classify (mode_of st) (esc_at s st i) (c :: r)) k).
  { intros k. rewrite <- Hcl. now rewrite nth_error_skipn. }
  destruct (body_track st i c r (inv_string ws tc s st i HI) Hsk i' st' Hb)
    as [(-> & Hs1 & Hc1)|(-> & Hs2 & Hc2)].
  - split.
    + rewrite <- Hs1, <- Hadd. f_equal. lia.
    + intros Hq. destruct (Hc1 Hq) as (Hq0 & Ho & Hhd).
      destruct (T2 Hq0) as [Hb0 Hcom]. rewrite Ho. split; [exact Hb0|].
      intros j Hj1 Hj2. destruct (Nat.eq_dec j i) as [->|Hne].
      * specialize (Hnth 0). rewrite Nat.add_0_r in Hnth. rewrite Hnth.
        rewrite <- Hhd.
        now destruct (classify (mode_of st) (esc_at s st i) (c :: r)).
      * apply Hcom; lia.
  - split.
    + rewrite <- Hs2, <- Hadd. f_equal. lia.
    + intros Hq. destruct (Hc2 Hq) as (Hm & Ho & Hf). rewrite Ho. split.
      * exists (esc_at s st i). rewrite T1, Hm. reflexivity.
      * intros j Hj1 Hj2. replace j with (i + (j - i)) by lia.
        rewrite Hnth.
        destruct (classify (mode_of st) (esc_at s st i) (c :: r))
          as [|k1 [|k2 l]]; simpl in Hf; try discriminate Hf.
        injection Hf as -> ->.
        destruct (j - i) as [|[|k]] eqn:E; [reflexivity|reflexivity|lia].
Qed.

Lemma loop_track (n : nat) :
  forall i st,
    Inv ws tc s st i -> on_track s st i ->
    on_track s (snd (loop ws tc s n i st)) (fst (loop ws tc s n i st)).
Proof.
  induction n as [|n IH]; intros i st HI HT; simpl; [exact HT|].
  destruct (i <? length s) eqn:Hlt; [|exact HT].
  apply Nat.ltb_lt in Hlt.
  destruct (body ws tc s i st) as [i' st'] eqn:Hb.
  destruct (step ws tc s st i HI Hlt i' st' Hb) as (_ & HI' & _).
  apply IH; [exact HI'|].
  apply (step_track st i HI Hlt HT i' st' Hb).
Qed.

Lemma final_track : on_track s (final_state ws tc s) (length s).
Proof.
  pose proof (loop_track (length s) 0 initial (Inv_initial ws tc s)
                on_track_initial) as H.
  destruct (loop_spec ws tc s (length s) 0 initial (Inv_initial ws tc s)
              ltac:(lia)) as (Hi & _ & _).
  rewrite Hi in H. exact H.
Qed.

(** When the loop ends inside a comment, the scanner reads the text before
    [offset] as it reads that text alone, where it ends outside strings and
    comments, and counts everything from [offset] on as comment. *)
Lemma open_comment_split :
  inComment (isInsideComment (final_state ws tc s)) = true ->
  classify Normal false s
  = classify Normal false (firstn (offset (final_state ws tc s)) s)
    ++ repeat Com (length s - offset (final_state ws tc s))
  /\ fst (scan_end Normal false (firstn (offset (final_state ws tc s)) s))
     = Normal.
Proof.
  intros Hc. destruct final_track as [_ T2].
  destruct (T2 Hc) as [[e Hb] Hcom].
  set (o := offset (final_state ws tc s)) in *.
  destruct (scan_at_firstn s o _ _ _ _ Hb) as [Hf He].
  split; [|now rewrite He].
  rewrite Hf.
  rewrite <- (firstn_skipn o (classify Normal false s)) at 1.
  f_equal.
  assert (Hl : length (skipn o (classify Normal false s)) = length s - o)
    by now rewrite length_skipn, classify_length.
  rewrite <- Hl. apply all_comment.
  intros j Hj. rewrite nth_error_skipn. apply Hcom; lia.
Qed.

End Track.

(** ** The output for a text that ends inside a comment *)

Lemma closes_comment (t : jsstring) (cl : list (cls * codeunit)) :
  closes (cl ++ combine (repeat Com (length t)) t) = closes cl.
Proof.
  induction cl as [|[k c] cl IH]; simpl.
  - induction t as [|c t IHt]; simpl; auto.
  - destruct k; [reflexivity|exact IH|now rewrite IH].
Qed.

Lemma emit_comment_tail (ws tc : bool) (t : jsstring)
      (cl : list (cls * codeunit)) :
  forall p,
    emit ws tc p (cl ++ combine (repeat Com (length t)) t)
    = emit ws tc p cl ++ strip_all ws t.
Proof.
  induction cl as [|[k c] cl IH]; intros p.
  - rewrite strip_all_eq. cbn [app emit].
    induction t as [|c t IHt]; simpl.
    + now destruct ws.
    + rewrite IHt. unfold erase. now destruct ws.
  - cbn [app emit]. rewrite IH, <- app_assoc. f_equal.
    unfold removed_here. now rewrite closes_comment.
Qed.

(** The output for a text that ends inside a comment is the output for the
    text before the comment, followed by what the whitespace policy makes of
    the comment. *)
Lemma strip_string_open (ws tc : bool) (s : jsstring) :
  inComment (isInsideComment (final_state ws tc s)) = true ->
  strip_string ws tc s
  = strip_string ws tc (firstn (offset (final_state ws tc s)) s)
    ++ strip_all ws (skipn (offset (final_state ws tc s)) s).
Proof.
  intros Hc. destruct (open_comment_split ws tc s Hc) as [Hcl _].
  pose proof (inv_offset _ _ _ _ _ (final_Inv ws tc s)) as Ho.
  set (o := offset (final_state ws tc s)) in *.
  rewrite !strip_string_spec, !strip_spec_emit.
  assert (E : classified s
              = classified (firstn o s)
                ++ combine (repeat Com (length (skipn o s))) (skipn o s)).
  { unfold classified. rewrite Hcl, length_skipn.
    rewrite <- (firstn_skipn o s) at 3.
    apply combine_app, classify_length. }
  rewrite E. apply emit_comment_tail.
Qed.

(** C9.  When the text ends inside a comment, [offset] is where that comment
    begins: the two characters there open the comment, the scanner of the
    specification reads the text before [offset] as a text that ends outside
    strings and comments, and it counts every character from [offset] to the
    end of the text as comment.  That tail is replaced as the whitespace
    policy says and never left as it is: the output is the output for the
    text before the comment, which is what [result] and [buffer] hold,
    followed by the blanked tail when whitespace is preserved and by nothing
    when it is removed.  So with whitespace removed the output is made of
    characters of the text before the comment only, and with whitespace
    preserved the output from [offset] on is the blanked tail of the
    input. *)
Theorem C9_unterminated_comment (ws tc : bool) (s : jsstring) :
  inComment (isInsideComment (final_state ws tc s)) = true ->
  let st := final_state ws tc s in
  (nth_error s (offset st) = Some SLASH
   /\ nth_error s (S (offset st))
      = Some (if isSingle (isInsideComment st) then SLASH else STAR))
  /\ strip_string ws tc s
     = result st ++ buffer st ++
       (if ws then map blank (skipn (offset st) s) else [])
  /\ (ws = true ->
      length (result st ++ buffer st) = offset st
      /\ skipn (offset st) (strip_string ws tc s)
         = map blank (skipn (offset st) s))
  /\ fst (scan_end Normal false (firstn (offset st) s)) = Normal
  /\ (forall j, offset st <= j -> j < length s ->
        nth_error (classify Normal false s) j = Some Com)
  /\ result st ++ buffer st = strip_string ws tc (firstn (offset st) s)
  /\ strip_string ws tc s
     = strip_string ws tc (firstn (offset st) s)
       ++ (if ws then map blank (skipn (offset st) s) else [])
  /\ (ws = false ->
      strip_string ws tc s = strip_string ws tc (firstn (offset st) s)
      /\ subsequence (strip_string ws tc s) (firstn (offset st) s)
      /\ length (strip_string ws tc s) <= offset st).
Proof.
  intros Hc st. pose proof (final_Inv ws tc s) as HI. fold st in HI, Hc.
  destruct (inv_marker _ _ _ _ _ HI Hc) as (_ & H1 & H2).
  pose proof (inv_offset _ _ _ _ _ HI) as Ho.
  pose proof (inv_index _ _ _ _ _ HI) as Hi.
  assert (Hout : strip_string ws tc s
                 = result st ++ buffer st ++
                   (if ws then map blank (skipn (offset st) s) else [])).
  { unfold strip_string, finish. fold st. rewrite Hc.
    now rewrite strip_all_eq. }
  destruct (open_comment_split ws tc s Hc) as [Hcl Hend]. fold st in Hcl, Hend.
  pose proof (strip_string_open ws tc s Hc) as Hpre. fold st in Hpre.
  rewrite strip_all_eq in Hpre.
  assert (Hsub : forall t, subsequence (strip_string false tc t) t).
  { intros t. rewrite strip_string_spec, strip_spec_emit.
    pose proof (emit_subsequence tc (classified t) false) as H.
    unfold classified in H at 2.
    now rewrite map_snd_combine in H by apply classify_length. }
  split; [split; assumption|]. split; [exact Hout|]. split.
  { intros W.
    assert (Hl : length (result st ++ buffer st) = offset st).
    { rewrite length_app. now apply (inv_length _ _ _ _ _ HI). }
    split; [exact Hl|].
    rewrite Hout, W, app_assoc, skipn_app, Hl, Nat.sub_diag.
    rewrite <- Hl at 1. now rewrite skipn_all. }
  split; [exact Hend|]. split.
  { intros j Hj1 Hj2. rewrite Hcl.
    assert (Hlen : length (classify Normal false (firstn (offset st) s))
                   = offset st).
    { rewrite classify_length, length_firstn. lia. }
    rewrite nth_error_app2 by lia. rewrite Hlen.
    apply nth_error_repeat. lia. }
  split.
  { pose proof Hpre as E. rewrite Hout, app_assoc in E.
    exact (app_inv_tail _ _ _ E). }
  split; [exact Hpre|].
  intros W. rewrite W in *. rewrite app_nil_r in Hpre.
  split; [exact Hpre|]. split.
  - rewrite Hpre. apply Hsub.
  - rewrite Hpre.
    pose proof (emit_length false tc
                  (classified (firstn (offset st) s)) false) as Hle.
    rewrite <- strip_spec_emit, <- strip_string_spec in Hle.
    rewrite classified_length, length_firstn in Hle. lia.
Qed.

(** The input [// unterminated] becomes fifteen spaces, and with whitespace
    removed [a // b] becomes [a ] with the space before the comment. *)
Lemma C9_witness :
  stripJsonComments (VString (js "// unterminated")) no_options
  = Returned (repeat SPACE 15)
  /\ stripJsonComments (VString (js "a // b")) (mkOptions (Some false) None)
     = Returned (js "a ").
Proof.
  split.
  - change (Returned (strip_string true false (js "// unterminated"))
            = Returned (repeat SPACE 15)).
    rewrite (proj1 (proj2 (C9_unterminated_comment true false
                             (js "// unterminated") eq_refl))).
    reflexivity.
  - change (Returned (strip_string false false (js "a // b"))
            = Returned (js "a ")).
    pose proof (C9_unterminated_comment false false (js "a // b") eq_refl)
      as H.
    cbv zeta in H. destruct H as (_ & _ & _ & _ & _ & _ & H & _).
    rewrite H. reflexivity.
Defined.
